(** * gonote: the SimpleNote client

    A shallow embedding of the SimpleNote client of gonote (the file that
    declares [simpleNoteClient]): the request dispatcher [makeRequest] with
    [parseAddr] and [Authorize], the index fetcher [getAllNotes], the
    single-note operations [fetchNote], [updateNote], [deleteNote], the
    listing [listNotes] and the presenter [showNotes].

    Go values are modelled as follows.
    - [string] and [[]byte] are [string]; [int] is [Z], with the 64-bit
      wrap-around written out where the code subtracts.
    - [map[string]string] is [gmap string string]; a [nil] map is [None].
    - an [error] is [option error]: [None] is [nil].
    - a method of [*simpleNoteClient] is a function of the client as it
      is before the call: the receiver's fields, the state of the network
      behind [s.Client], the calls of [s.Client.Do] so far and what was
      printed.
    - [makeRequest] and [getAllNotes] recurse without a bound: they take
      fuel, and [OutOfFuel] stands for a run that has not come back yet.
    - the Go libraries (net/http, encoding/json, encoding/base64, sort) and
      the helpers of the repository that are declared outside this file
      are the fields of [Externals]. *)

From Stdlib Require Import ZArith Ascii String.
From stdpp Require Import base gmap strings list sorting pretty.

Local Open Scope string_scope.
Local Open Scope list_scope.
Local Open Scope Z_scope.

(** ** Constants *)

Definition baseUrl : string := "https://simple-note.appspot.com/api2/".
Definition authorizeUrl : string := "https://simple-note.appspot.com/api/login".
Definition dataEndpoint : string := "data".
Definition indexEndpoint : string := "index".
Definition defaultNoteAmount : Z := 100.
Definition noteHeaderLength : nat := 80.

Definition MethodGet : string := "GET".
Definition MethodPost : string := "POST".
Definition MethodDelete : string := "DELETE".

Definition StatusOK : Z := 200.
Definition StatusUnauthorized : Z := 401.
Definition StatusForbidden : Z := 403.
Definition StatusPreconditionFailed : Z := 412.
Definition StatusInternalServerError : Z := 500.

(** ** Data *)

Record Note := mkNote {
  Content : string;
  Tags : list string;
  SystemTags : list string;
  Deleted : Z;
  Key : string;
  ShareKey : string;
  PublishKey : string;
  ModifyDate : string;
  CreateDate : string
}.

(** [Note{}] *)
Definition Note_zero : Note := mkNote "" [] [] 0 "" "" "" "" "".

(** [Note{Key: k}] *)
Definition Note_of_key (k : string) : Note := mkNote "" [] [] 0 k "" "" "" "".

(** [note.Deleted = d] *)
Definition set_Deleted (d : Z) (n : Note) : Note :=
  mkNote (Content n) (Tags n) (SystemTags n) d (Key n) (ShareKey n)
         (PublishKey n) (ModifyDate n) (CreateDate n).

#[global] Instance Note_eq_dec : EqDecision Note.
Proof. solve_decision. Defined.

Definition Notes := list Note.

Record NoteList := mkNoteList {
  Count : Z;
  Data : list Note;
  Mark : string
}.

Record UserConfigFile := mkUserConfigFile {
  Email : string;
  Password : string;
  Markdown : bool;
  Editor : string
}.

Module CommandLineParams.
Record t := mk {
  Content : string;
  Tags : list string;
  Action : string;
  Key : string;
  Flags : gmap string string;
  Piped : bool
}.
End CommandLineParams.

(** [m[k]] on a [map[string]string]: the empty string when [k] is absent. *)
Definition index (m : gmap string string) (k : string) : string :=
  default "" (m !! k).

(** The errors of the client by the place that makes them; an error that a
    library hands back is [ErrLibrary]. *)
Inductive error :=
  | ErrMissingKey                 (* "Missing key parameter in request." *)
  | ErrUpdate (code : Z)          (* "Error when updating note, code was: %d" *)
  | ErrRequestFailed (code : Z)   (* "Simplenote request failed. Code was: %d" *)
  | ErrAuthorize (code : Z)       (* "Error authorizing the client, ..." *)
  | ErrTimeout                    (* "Timeout when fetching notes" *)
  | ErrLibrary (what : string).

#[global] Instance error_eq_dec : EqDecision error.
Proof. solve_decision. Defined.

(** ** net/http *)

(** [url.Values] *)
Abbreviation Values := (gmap string (list string)).

(** An [*http.Request]. [Query] stands for [URL.RawQuery], read as the
    values it encodes. [Body] is the [io.Reader] the request was built
    over, named by the bytes the reader was created on; how far a reader
    has been read is the network's business, not the request's. *)
Record Request := mkRequest {
  Method : string;
  URL : string;
  Query : Values;
  Header : gmap string string;
  Body : option string
}.

(** An [*http.Response]: the status and what [ioutil.ReadAll(resp.Body)]
    gives. *)
Record Response := mkResponse {
  StatusCode : Z;
  ReadAll : string * option error
}.

(** ** strconv.Atoi *)

Definition digit (c : ascii) : option Z :=
  let n := Z.of_N (N_of_ascii c) - 48 in
  if bool_decide (0 ≤ n ≤ 9) then Some n else None.

Fixpoint digits (s : string) (acc : Z) : option Z :=
  match s with
  | EmptyString => Some acc
  | String c s' =>
      match digit c with
      | Some d => digits s' (acc * 10 + d)
      | None => None
      end
  end.

Definition minInt : Z := - 2 ^ 63.
Definition maxInt : Z := 2 ^ 63 - 1.

(** An optional sign, then one decimal digit or more; a value outside
    [int] is a range error. *)
Definition strconv_Atoi (s : string) : Z * option error :=
  let '(neg, body) :=
    match s with
    | String "-"%char r => (true, r)
    | String "+"%char r => (false, r)
    | _ => (false, s)
    end in
  match body with
  | EmptyString => (0, Some (ErrLibrary "strconv.Atoi: invalid syntax"))
  | _ =>
      match digits body 0 with
      | None => (0, Some (ErrLibrary "strconv.Atoi: invalid syntax"))
      | Some v =>
          let n := if neg : bool then - v else v in
          if bool_decide (minInt ≤ n ≤ maxInt) then (n, None)
          else ((if neg then minInt else maxInt),
                Some (ErrLibrary "strconv.Atoi: value out of range"))
      end
  end.

(** [strconv.Itoa] *)
Definition strconv_Itoa (n : Z) : string := pretty n.

(** [int] subtraction. *)
Definition wrap (z : Z) : Z := (z - minInt) `mod` 2 ^ 64 + minInt.
Definition int_sub (a b : Z) : Z := wrap (a - b).

(** [len] *)
Definition len {A} (l : list A) : Z := Z.of_nat (length l).

(** [l[cut:]]: out of range unless [0 <= cut <= len(l)]. *)
Definition slice_from {A} (l : list A) (cut : Z) : option (list A) :=
  if bool_decide (0 ≤ cut ≤ len l) then Some (drop (Z.to_nat cut) l) else None.

(** ** What the client is linked against *)

(** The Go libraries and the repository's helpers that are declared
    outside the client's file. [World] is the state of everything behind
    [s.Client]: the connection, the server, the readers in flight.
    - [Client_Do] is the [Do] method of [http.Client]: the response and
      the error, both of which may be [nil], and the world afterwards.
    - [url_Parse] is what [http.NewRequest] makes of the address: the
      values of its query, or the error [NewRequest] returns.
    - [sort_Sort] is [sort.Sort] on a slice whose [Less] is the argument.
    - [GetSimpleNoteTimestamp] is the repository's helper of that name.
    - [Sprintf_noteListRecord key date tags content] is
      [fmt.Sprintf(noteListRecord, redColored(key),
      cyanColored(HumanDate(date)), blueColored(ParseTags(tags)), content)]. *)
Record Externals := mkExternals {
  World : Type;
  Client_Do : World → Request → (option Response * option error) * World;
  url_Parse : string → Values * option error;
  Version : string;
  base64_EncodeToString : string → string;
  json_Marshal : Note → string * option error;
  json_Unmarshal_Note : string → Note * option error;
  json_Unmarshal_NoteList : string → NoteList * option error;
  GetSimpleNoteTimestamp : string → Z;
  sort_Sort : (Note → Note → bool) → list Note → list Note;
  Sprintf_noteListRecord : string → string → list string → string → string
}.

(** What [fmt.Printf] and [fmt.Println] wrote.
    - [ListingEmpty email]: [Printf(noteListBody, 0, email, "No Notes")];
    - [Listing n email parsed]:
      [Printf(noteListBody, blueColored(n), email, strings.Join(parsed, "\n"))];
    - [Line s]: [Println(s)]. *)
Inductive printed :=
  | ListingEmpty (email : string)
  | Listing (n : Z) (email : string) (parsed : list string)
  | Line (s : string).

(** The records a listing shows. *)
Definition records (p : printed) : list string :=
  match p with
  | Listing _ _ parsed => parsed
  | _ => []
  end.

(** A request handed to [s.Client.Do] and what came back. *)
Definition exchange : Type := Request * (option Response * option error).

(** [simpleNoteClient], the receiver of every method, together with the
    two things a run leaves behind that are not fields of the Go struct:
    [wire], the calls of [s.Client.Do], oldest first, and [stdout], what
    was printed, oldest first. *)
Record simpleNoteClient (X : Externals) := mkClient {
  Client : World X;
  Token : string;
  Cfg : UserConfigFile;
  Params : CommandLineParams.t;
  wire : list exchange;
  stdout : list printed
}.

Arguments mkClient {X} _ _ _ _ _ _.
Arguments Client {X} _.
Arguments Token {X} _.
Arguments Cfg {X} _.
Arguments Params {X} _.
Arguments wire {X} _.
Arguments stdout {X} _.

(** How a call ends: it returns, the process exits ([log.Fatal]), the
    goroutine panics, or the fuel ran out before any of these. *)
Inductive outcome (S A : Type) :=
  | Returns (a : A) (s : S)
  | Exits (s : S)
  | Panics (s : S)
  | OutOfFuel (s : S).

Arguments Returns {S A} _ _.
Arguments Exits {S A} _.
Arguments Panics {S A} _.
Arguments OutOfFuel {S A} _.

(** The client as it is when the call ends. *)
Definition final {S A} (o : outcome S A) : S :=
  match o with
  | Returns _ s | Exits s | Panics s | OutOfFuel s => s
  end.

Definition M (X : Externals) (A : Type) : Type :=
  simpleNoteClient X → outcome (simpleNoteClient X) A.

Definition ret {X A} (a : A) : M X A := λ s, Returns a s.

Definition bind {X A B} (c : M X A) (k : A → M X B) : M X B :=
  λ s, match c s with
       | Returns a s' => k a s'
       | Exits s' => Exits s'
       | Panics s' => Panics s'
       | OutOfFuel s' => OutOfFuel s'
       end.

#[global] Instance M_ret {X} : MRet (M X) := @ret X.
#[global] Instance M_bind {X} : MBind (M X) := λ A B k c, bind c k.

Definition panic {X A} : M X A := λ s, Panics s.
Definition log_Fatal {X A} : M X A := λ s, Exits s.
Definition out_of_fuel {X A} : M X A := λ s, OutOfFuel s.

(** The client after [s.Client.Do(req)] gave [r] and left the network in
    [w]. *)
Definition sent {X} (s : simpleNoteClient X) (req : Request)
    (r : option Response * option error) (w : World X) : simpleNoteClient X :=
  mkClient w (Token s) (Cfg s) (Params s) (wire s ++ [(req, r)]) (stdout s).

(** The client after [s.Token = t]. *)
Definition with_Token {X} (t : string) (s : simpleNoteClient X)
    : simpleNoteClient X :=
  mkClient (Client s) t (Cfg s) (Params s) (wire s) (stdout s).

(** The client after it printed [p]. *)
Definition printing {X} (p : printed) (s : simpleNoteClient X)
    : simpleNoteClient X :=
  mkClient (Client s) (Token s) (Cfg s) (Params s) (wire s) (stdout s ++ [p]).

Definition print {X} (p : printed) : M X () := λ s, Returns () (printing p s).

Definition set_Token {X} (t : string) : M X () :=
  λ s, Returns () (with_Token t s).

(** [s.Client.Do(req)] *)
Definition Do {X} (req : Request) : M X (option Response * option error) :=
  λ s, let '(r, w) := Client_Do X (Client s) req in Returns r (sent s req r w).

(** ** The dispatcher *)

(** [http.NewRequest(method, addr, body)], for the methods the client
    uses. *)
Definition http_NewRequest (X : Externals) (method addr : string)
    (body : option string) : option Request * option error :=
  match url_Parse X addr with
  | (_, Some e) => (None, Some e)
  | (vals, None) => (Some (mkRequest method addr vals ∅ body), None)
  end.

(** [vals.Add(k, v)] *)
Definition Values_Add (k v : string) (vals : Values) : Values :=
  <[k := default [] (vals !! k) ++ [v]]> vals.

Definition set_Query (vals : Values) (req : Request) : Request :=
  mkRequest (Method req) (URL req) vals (Header req) (Body req).

Definition set_Header (h : gmap string string) (req : Request) : Request :=
  mkRequest (Method req) (URL req) (Query req) h (Body req).

Definition parseAddr {X} (s : simpleNoteClient X) (req : Request)
    (params : option (gmap string string)) : Request :=
  let vals := Query req in
  let p : gmap string string :=
    <["auth" := Token s]> (<["email" := Email (Cfg s)]> ∅) in
  let p :=
    match params with
    | Some params => map_fold (λ k v p, <[k := v]> p) p params
    | None => p
    end in
  let vals := map_fold Values_Add vals p in
  set_Query vals req.

(** Default headers sent with each request to SimpleNote servers. *)
Definition simpleNoteHeaders (X : Externals) : gmap string string :=
  <["User-Agent" := "GoNote/" +:+ Version X]>
    (<["Accept" := "application/json"]>
       (<["Content-Type" := "application/json"]> ∅)).

(** The body [Authorize] posts. *)
Definition encodedBody (X : Externals) (cfg : UserConfigFile) : string :=
  let body := "email=" +:+ Email cfg +:+ "&password=" +:+ Password cfg in
  base64_EncodeToString X body.

(** Authorize retrieves access token used for calling SimpleNote servers. *)
Definition Authorize {X} : M X (option error) := λ s,
  match http_NewRequest X MethodPost authorizeUrl
                        (Some (encodedBody X (Cfg s))) with
  | (_, Some e) => Returns (Some e) s
  | (None, None) => Panics s
  | (Some req, None) =>
      ('(resp, err) ← Do req ;
       match err, resp with
       | Some e, _ => ret (Some e)
       | None, None => panic
       | None, Some resp =>
           if bool_decide (StatusCode resp ≠ StatusOK)
           then ret (Some (ErrAuthorize (StatusCode resp)))
           else
             match ReadAll resp with
             | (_, Some e) => ret (Some e)
             | (code, None) => _ ← set_Token code ; ret None
             end
       end) s
  end.

(** Lines 433 to 440 of [makeRequest]: the request as it is handed to
    [s.Client.Do]. *)
Definition prepare {X} (s : simpleNoteClient X) (addr method : string)
    (body : option string) (additionalParams : option (gmap string string))
    : option Request * option error :=
  match http_NewRequest X method addr body with
  | (Some req, None) =>
      let req := parseAddr s req additionalParams in
      let req :=
        set_Header (map_fold (λ k v h, <[k := v]> h) (Header req)
                             (simpleNoteHeaders X)) req in
      (Some req, None)
  | r => r
  end.

(** Basic HTTP handler used for all SimpleNote requests (except
    Authorize). The results are [(response, err, code)]. The response of
    [Do] is dereferenced by the [defer] before the error is looked at. *)
Fixpoint makeRequest {X} (fuel : nat) (addr method : string)
    (body : option string) (additionalParams : option (gmap string string))
    : M X (string * option error * Z) :=
  match fuel with
  | O => out_of_fuel
  | S fuel => λ s,
      match prepare s addr method body additionalParams with
      | (_, Some e) => Returns ("", Some e, 0) s
      | (None, None) => Panics s
      | (Some req, None) =>
          ('(resp, err) ← Do req ;
           match resp, err with
           | None, _ => panic
           | Some _, Some e => ret ("", Some e, 0)
           | Some resp, None =>
               if bool_decide (StatusCode resp = StatusForbidden)
                  || bool_decide (StatusCode resp = StatusUnauthorized)
               then
                 err ← Authorize ;
                 match err with
                 | Some e => ret ("", Some e, 0)
                 | None => makeRequest fuel addr method body additionalParams
                 end
               else if bool_decide (StatusCode resp = StatusInternalServerError)
                       || bool_decide (StatusCode resp = StatusPreconditionFailed)
               then makeRequest fuel addr method body additionalParams
               else
                 let '(response, err) := ReadAll resp in
                 ret (response, err, StatusCode resp)
           end) s
      end
  end.

(** ** Single notes *)

(** The address of a note: [fmt.Sprintf("%s%s/%s", baseUrl, dataEndpoint, key)]. *)
Definition noteUrl (key : string) : string :=
  baseUrl +:+ dataEndpoint +:+ "/" +:+ key.

(** FetchNote retrieves single note contents. *)
Definition fetchNote {X} (fuel : nat) (n : Note) : M X Note :=
  '(resp, err, code) ←
    makeRequest fuel (noteUrl (Key n)) MethodGet None None ;
  match err with
  | Some _ => log_Fatal
  | None =>
      if bool_decide (code ≠ StatusOK) then log_Fatal
      else
        match json_Unmarshal_Note X resp with
        | (_, Some _) => log_Fatal
        | (i, None) => ret i
        end
  end.

(** UpdateNote updates all available values for given note. *)
Definition updateNote {X} (fuel : nat) (n : Note) : M X (option error) := λ s,
  if bool_decide (CommandLineParams.Key (Params s) = "")
  then Returns (Some ErrMissingKey) s
  else
    match json_Marshal X n with
    | (_, Some e) => Returns (Some e) s
    | (data, None) =>
        ('(_, err, code) ←
           makeRequest fuel (noteUrl (Key n)) MethodPost (Some data) None ;
         if bool_decide (code ≠ StatusOK) then ret (Some (ErrUpdate code))
         else _ ← print (Line "Note updated.") ; ret err) s
    end.

(** DeleteNote deletes the note with given key *)
Definition deleteNote {X} (fuel : nat) : M X (option error) := λ s,
  let n := Note_of_key (CommandLineParams.Key (Params s)) in
  (note ← fetchNote fuel n ;
   let note := set_Deleted 1 note in
   err ← updateNote fuel note ;
   match err with
   | Some e => ret (Some e)
   | None =>
       if bool_decide
            (index (CommandLineParams.Flags (Params s)) "permanently" = "true")
       then
         '(_, err, code) ←
           makeRequest fuel (noteUrl (Key note)) MethodDelete None None ;
         match err with
         | Some e => ret (Some e)
         | None =>
             if bool_decide (code ≠ StatusOK)
             then ret (Some (ErrRequestFailed code))
             else ret None
         end
       else ret None
   end) s.

(** ** The helpers (utils.go) *)

Module utils.

(** Check if value is in array. *)
Fixpoint CheckIn (needle : string) (haystack : list string) : bool :=
  match haystack with
  | [] => false
  | v :: haystack =>
      if bool_decide (v = needle) then true else CheckIn needle haystack
  end.

(** [strings.Split(d, ".")[0]]: [d] up to its first dot, all of [d] when
    it has none. *)
Fixpoint Split_dot_0 (d : string) : string :=
  match d with
  | EmptyString => EmptyString
  | String c r =>
      if bool_decide (c = "."%char) then EmptyString
      else String c (Split_dot_0 r)
  end.

(** GetSimpleNoteTimestamp returns proper int timestamp parsed from
    SimpleNote date field. The error of [strconv.Atoi] is dropped;
    [int64(i)] is [i], [int] being 64 bits wide. *)
Definition GetSimpleNoteTimestamp (d : string) : Z :=
  let d := Split_dot_0 d in
  let '(i, _) := strconv_Atoi d in
  i.

(** What is behind an [interface{}]: a string, an int, a bool, or a value
    of another type. *)
Inductive value :=
  | of_string (s : string)
  | of_int (n : Z)
  | of_bool (b : bool)
  | of_other.

(** [strconv.FormatBool] *)
Definition strconv_FormatBool (b : bool) : string :=
  if b then "true" else "false".

(** ToString converts some types used as flags values to string. [None]
    is the panic of the type assertion in the default branch. *)
Definition ConvertToString (val : value) : option string :=
  match val with
  | of_string s => Some s
  | of_int n => Some (strconv_Itoa n)
  | of_bool b => Some (strconv_FormatBool b)
  | of_other => None
  end.

End utils.

(** ** The index *)

(** The loop over [s.Params.Tags] for one entry: the entry is appended at
    the first tag found among its own, and the loop left. *)
Fixpoint appendIfTagged (tags : list string) (n : Note) (notes : Notes) : Notes :=
  match tags with
  | [] => notes
  | t :: tags =>
      if utils.CheckIn t (Tags n) then notes ++ [n]
      else appendIfTagged tags n notes
  end.

(** The loop over [l.Data] (lines 363 to 378). *)
Definition filterPage (p : CommandLineParams.t) (data : list Note)
    (notes : Notes) : Notes :=
  foldl (λ notes n,
           if bool_decide (index (CommandLineParams.Flags p) "deleted" ≠ "true")
              && bool_decide (Deleted n = 1)
           then notes
           else if bool_decide (len (CommandLineParams.Tags p) > 0)
           then appendIfTagged (CommandLineParams.Tags p) n notes
           else notes ++ [n])
        notes data.

(** The query parameters of an index call. *)
Definition qparams (mark : string) : gmap string string :=
  let qparams : gmap string string :=
    <["length" := strconv_Itoa defaultNoteAmount]> ∅ in
  if bool_decide (mark ≠ "") then <["mark" := mark]> qparams else qparams.

(** GetAllNotes retrieves all notes from SimpleNote user account. *)
Fixpoint getAllNotes {X} (fuel : nat) (notes : Notes) (mark : string)
    : M X (Notes * option error) :=
  match fuel with
  | O => out_of_fuel
  | S fuel => λ s,
      ('(resp, err, code) ←
         makeRequest fuel (baseUrl +:+ indexEndpoint) MethodGet None
                     (Some (qparams mark)) ;
       match err with
       | Some e => ret ([], Some e)
       | None =>
           if bool_decide (code ≠ StatusOK)
           then ret ([], Some (ErrRequestFailed code))
           else
             match json_Unmarshal_NoteList X resp with
             | (_, Some e) => ret ([], Some e)
             | (l, None) =>
                 let notes := filterPage (Params s) (Data l) notes in
                 if bool_decide (Mark l ≠ "")
                 then
                   '(newNotes, err) ← getAllNotes fuel notes mark ;
                   match err with
                   | Some e => ret ([], Some e)
                   | None => ret (notes ++ newNotes, None)
                   end
                 else ret (notes, None)
             end
       end) s
  end.

(** ** The presenter *)

(** [strings.Split(s, "\n")] *)
Fixpoint split_lines (s : string) : list string :=
  match s with
  | EmptyString => [""]
  | String c s' =>
      if bool_decide (c = "010"%char) then "" :: split_lines s'
      else
        match split_lines s' with
        | l :: ls => String c l :: ls
        | [] => [String c ""]
        end
  end.

(** The lines from the first one that is not empty, if there is one. *)
Fixpoint fromFirstLine (lines : list string) : option (list string) :=
  match lines with
  | [] => None
  | line :: rest =>
      if bool_decide (line ≠ "") then Some lines else fromFirstLine rest
  end.

(** ParseNote returns prettified version of the note record. *)
Definition parseNote (X : Externals) (note : Note) (shorten : bool) : string :=
  let lines := split_lines (Content note) in
  let lines := default lines (fromFirstLine lines) in
  let content :=
    match lines with
    | [] => ""
    | line0 :: _ =>
        if shorten then
          if bool_decide (Z.of_nat noteHeaderLength < Z.of_nat (String.length line0))
          then substring 0 noteHeaderLength line0 +:+ "..."
          else line0
        else String.concat (String "010"%char "") lines
    end in
  Sprintf_noteListRecord X (Key note) (ModifyDate note) (Tags note) content.

(** [Notes.Less], on the notes themselves. *)
Definition Less (X : Externals) (a b : Note) : bool :=
  bool_decide (GetSimpleNoteTimestamp X (ModifyDate a)
               < GetSimpleNoteTimestamp X (ModifyDate b)).

(** ShowNotes displays fetched list of notes to the user. *)
Definition showNotes {X} (notes : Notes) : M X () := λ s,
  let notes := sort_Sort X (Less X) notes in
  let parsed :=
    foldl (λ parsed n,
             if bool_decide (Content n ≠ "")
             then parsed ++ [parseNote X n true] else parsed)
          [] notes in
  if bool_decide (len parsed = 0)
  then print (ListingEmpty (Email (Cfg s))) s
  else
    let flag := index (CommandLineParams.Flags (Params s)) "n" in
    if bool_decide (flag ≠ "-1") then
      let '(n, err) := strconv_Atoi flag in
      let n := match err with Some _ => len parsed | None => n end in
      let n := if bool_decide (n > len parsed) then len parsed else n in
      let cut := int_sub (len parsed) n in
      match slice_from parsed cut with
      | None => Panics s
      | Some parsed => print (Listing (len parsed) (Email (Cfg s)) parsed) s
      end
    else print (Listing (len parsed) (Email (Cfg s)) parsed) s.

(** ** Listing *)

(** What the [select] of [listNotes] sees, in the order it sees it: a note
    sent on [noteCh] by one of the fetching goroutines, the firing of
    [reqTimeout], or the end of the process by a fetch that called
    [log.Fatal]. The fetches run beside the loop; the schedule is all the
    loop knows of them. *)
Inductive arrival :=
  | Fetched (retrieved : Note)
  | Deadline
  | Aborted.

(** The [for { select { ... } }] of [listNotes] (lines 221 to 233). With
    nothing left to see the loop is still waiting. *)
Fixpoint collect {X} (schedule : list arrival) (fullNotes notes : Notes)
    : M X (option error) :=
  match schedule with
  | [] => out_of_fuel
  | Fetched retrieved :: schedule =>
      let fullNotes := fullNotes ++ [retrieved] in
      if bool_decide (len fullNotes = len notes)
      then _ ← showNotes fullNotes ; ret None
      else collect schedule fullNotes notes
  | Deadline :: _ => ret (Some ErrTimeout)
  | Aborted :: _ => log_Fatal
  end.

(** ListNotes fetches all user notes and displays them in terminal. *)
Definition listNotes {X} (fuel : nat) (schedule : list arrival)
    : M X (option error) :=
  '(notes, err) ← getAllNotes fuel [] "" ;
  match err with
  | Some e => ret (Some e)
  | None =>
      if bool_decide (len notes = 0)
      then _ ← showNotes [] ; ret None
      else collect schedule [] notes
  end.

(** * The claims' own words *)

(** ** The index filter, as the spec words it *)

(** [includeDeleted] is the flag [deleted] of the command line. *)
Definition includeDeleted (p : CommandLineParams.t) : bool :=
  bool_decide (index (CommandLineParams.Flags p) "deleted" = "true").

(** An entry is kept when it is not deleted or deleted entries are asked
    for, and the tag filter is empty or one of the entry's tags equals one
    of the filter's. *)
Definition keeps (includeDeleted : bool) (filterTags : list string) (n : Note) : Prop :=
  (Deleted n ≠ 1 ∨ includeDeleted = true) ∧
  (filterTags = [] ∨ Exists (λ t, Exists (λ f, t = f) filterTags) (Tags n)).

#[global] Instance keeps_dec d f n : Decision (keeps d f n).
Proof. unfold keeps. apply _. Defined.

(** * Concrete runs *)

(** ** A Go toolchain *)

(** [data.Swap(i, j)] *)
Definition Swap {A} (l : list A) (i j : nat) : list A :=
  match l !! i, l !! j with
  | Some x, Some y => <[i := y]> (<[j := x]> l)
  | _, _ => l
  end.

(** [data.Less(i, j)] *)
Definition Less_at {A} (less : A → A → bool) (l : list A) (i j : nat) : bool :=
  match l !! i, l !! j with
  | Some x, Some y => less x y
  | _, _ => false
  end.

(** [for j := i; j > a && data.Less(j, j-1); j-- { data.Swap(j, j-1) }] *)
Fixpoint sink {A} (less : A → A → bool) (j : nat) (l : list A) : list A :=
  match j with
  | O => l
  | S j' => if Less_at less l j j' then sink less j' (Swap l j j') else l
  end.

(** [insertionSort(data, 0, n)] of package sort. *)
Definition insertionSort {A} (less : A → A → bool) (l : list A) : list A :=
  foldl (λ l i, sink less i l) l (seq 1 (length l - 1)).

(** The pass with gap 6 that [quickSort] of package sort makes over a
    range of at most 12 elements before it sorts it by insertion:
    [for i := a + 6; i < b; i++ { if data.Less(i, i-6) { data.Swap(i, i-6) } }]. *)
Definition shellPass {A} (less : A → A → bool) (l : list A) : list A :=
  foldl (λ l i, if Less_at less l i (i - 6) then Swap l i (i - 6) else l)
        l (seq 6 (length l - 6)).

(** [sort.Sort] as the Go releases with the quicksort of package sort run
    it on a slice of at most 12 elements: the pass with gap 6, then
    insertion sort. On a longer slice this is still a sort, by insertion. *)
Definition sort_small {A} (less : A → A → bool) (l : list A) : list A :=
  insertionSort less (shellPass less l).

(** The client linked against a network [W] with [do] for [Client.Do] and
    the two decoders of the bodies the network sends. The rest is fixed:
    addresses carry no query of their own, the timestamp of a note is the
    number its modification date spells, a record is its key, date and
    content, a note is sent as its key and deleted flag. *)
Definition linked (W : Type)
    (do : W → Request → (option Response * option error) * W)
    (unmarshalNote : string → Note * option error)
    (unmarshalList : string → NoteList * option error) : Externals :=
  mkExternals W do
    (λ _, (∅, None))
    "0.1.0"
    (λ s, s)
    (λ n, (Key n +:+ ";deleted=" +:+ pretty (Deleted n), None))
    unmarshalNote
    unmarshalList
    (λ s, (strconv_Atoi s).1)
    sort_small
    (λ key date tags content, key +:+ " " +:+ date +:+ " " +:+ content).

(** No network at all: every call fails in the transport. *)
Definition offline : Externals :=
  linked () (λ w _, ((None, Some (ErrLibrary "no network")), w))
         (λ _, (Note_zero, Some (ErrLibrary "json")))
         (λ _, (mkNoteList 0 [] "", Some (ErrLibrary "json"))).

Definition noParams : CommandLineParams.t :=
  CommandLineParams.mk "" [] "" "" ∅ false.

(** A client with a token, an account and command-line parameters, before
    it has sent or printed anything. *)
Definition fresh {X} (w : World X) (token email : string)
    (p : CommandLineParams.t) : simpleNoteClient X :=
  mkClient w token (mkUserConfigFile email "secret" true "vim") p [] [].

(** ** The presenter, as the spec words it *)

(** What [sort.Sort] promises of its result [l'] on the input [l]: the
    same elements, and no element less than one that stands before it. *)
Definition sorts {A} (less : A → A → bool) (l l' : list A) : Prop :=
  l' ≡ₚ l ∧ StronglySorted (λ x y, less y x = false) l'.

(** Of notes already sorted: drop the ones without content, then keep the
    last [min limit count] of the [count] that remain. *)
Definition present (limit : Z) (sorted : list Note) : list Note :=
  let remaining := filter (λ n, Content n ≠ "") sorted in
  drop (length remaining - Z.to_nat (Z.min limit (len remaining))) remaining.

(** [x] stands before [y] in [l]. *)
Definition before {A} (x y : A) (l : list A) : Prop :=
  ∃ i j, (i < j)%nat ∧ l !! i = Some x ∧ l !! j = Some y.

(** A note with a key, a content and a modification date. *)
Definition note (key content date : string) : Note :=
  mkNote content [] [] 0 key "" "" date "".

(** A client without a network whose flag [n] is [limit]. *)
Definition lister (limit : string) : simpleNoteClient offline :=
  fresh (X := offline) () "T0" "me@example.org"
        (CommandLineParams.mk "" [] "list" "" {["n" := limit]} false).

(** Seven notes, the first and the fourth modified at the same time. *)
Definition tied : list Note :=
  [ note "a" "first" "5"; note "p" "x" "1"; note "q" "x" "2";
    note "b" "second" "5"; note "r" "x" "6"; note "t" "x" "7";
    note "u" "x" "3" ].

(** ** A network that answers from a script *)

(** The answers the network will give, in order, whatever is asked; when
    the script is over the connection is refused. *)
Definition replay (w : list (option Response * option error)) (_ : Request)
    : (option Response * option error) * list (option Response * option error) :=
  match w with
  | r :: w' => (r, w')
  | [] => ((None, Some (ErrLibrary "connection refused")), [])
  end.

(** A body is read as the note whose key it spells. *)
Definition keyed (body : string) : Note * option error :=
  match body with
  | EmptyString => (Note_zero, Some (ErrLibrary "unexpected end of JSON input"))
  | _ => (note body "text" "100", None)
  end.

Definition scripted : Externals :=
  linked (list (option Response * option error)) replay keyed
         (λ _, (mkNoteList 0 [] "", Some (ErrLibrary "json"))).

(** An answer with a status and a body. *)
Definition answer (code : Z) (body : string) : option Response * option error :=
  (Some (mkResponse code (body, None)), None).

(** ** What is on the wire *)

(** A call of the login made by [Authorize] for the account [cfg]. *)
Definition is_login (X : Externals) (cfg : UserConfigFile) (x : exchange) : Prop :=
  http_NewRequest X MethodPost authorizeUrl (Some (encodedBody X cfg))
  = (Some x.1, None).

(** A call made by [makeRequest addr method body params] for the account
    [cfg], under some token. *)
Definition is_call (X : Externals) (cfg : UserConfigFile) (addr method : string)
    (body : option string) (params : option (gmap string string))
    (x : exchange) : Prop :=
  ∃ s : simpleNoteClient X,
    Cfg s = cfg ∧ prepare s addr method body params = (Some x.1, None).


(** What a call leaves of the client as it found it: the account and the
    command line, and the wire with [new] after what was on it. *)
Definition extends {X} (s : simpleNoteClient X) (new : list exchange)
    (s' : simpleNoteClient X) : Prop :=
  wire s' = wire s ++ new ∧ Cfg s' = Cfg s ∧ Params s' = Params s.


(** ** An index of two pages *)

(** The bodies of the two pages: the first holds the note "a" and the
    continuation mark "m1", the second the note "b" and no mark. *)
Definition pages (body : string) : NoteList * option error :=
  if bool_decide (body = "page1")
  then (mkNoteList 1 [note "a" "" "100"] "m1", None)
  else if bool_decide (body = "page2")
  then (mkNoteList 1 [note "b" "" "200"] "", None)
  else (mkNoteList 0 [] "", Some (ErrLibrary "json")).

(** A server that pages by mark: an index call without a mark gets the
    first page, an index call with the mark "m1" gets the second. *)
Definition byMark (w : ()) (req : Request) : (option Response * option error) * () :=
  if bool_decide (URL req = baseUrl +:+ indexEndpoint)
  then
    match Query req !! "mark" with
    | None => (answer 200 "page1", w)
    | Some marks =>
        if bool_decide (marks = ["m1"]) then (answer 200 "page2", w)
        else (answer 400 "", w)
    end
  else (answer 404 "", w).

Definition paged : Externals := linked () byMark keyed pages.

(** A server that pages by itself: the first index call gets the first
    page and the second the second, whatever mark they carry. *)
Definition inTurn : Externals :=
  linked (list (option Response * option error)) replay keyed pages.

(** An index call carries [length=100] and no mark. *)
Definition unmarked (x : exchange) : Prop :=
  URL x.1 = baseUrl +:+ indexEndpoint
  ∧ Query x.1 !! "length" = Some ["100"]
  ∧ Query x.1 !! "mark" = None.

(** ** A server that is down *)

(** Every call is answered 500. *)
Definition down : Externals :=
  linked () (λ w _, (answer 500 "", w)) keyed pages.

(** ** Creating a note *)





(** A client told to delete a note, by a command line whose key is
    empty, on a network that answers the fetch with a note. *)
Definition keyless : simpleNoteClient scripted :=
  fresh (X := scripted) [answer 200 "0123456789abcdef0123456789abcdef"]
        "T0" "me@example.org"
        (CommandLineParams.mk "" [] "delete" "" {["permanently" := "true"]} false).

(** ** The text of a record *)

(** A line break. *)
Definition lineBreak : ascii := "010"%char.


(** There is no line break in [s]. *)
Fixpoint unbroken (s : string) : Prop :=
  match s with
  | EmptyString => True
  | String c s' => c ≠ lineBreak ∧ unbroken s'
  end.

(** Two notes that arrive in either order. *)
Definition early : Note := note "k1" "one" "100".
Definition late : Note := note "k2" "two" "200".

(** * The command line (cmd.go) *)

Definition tagPrefix : string := "@".
Definition SimpleNoteKeyLength : Z := 32.

(** Actions available for the user. Keys represent name of actions,
    values, whether action requires note key parameter. *)
Definition CustomActions : gmap string bool :=
  <["version" := false]> (<["list" := false]> (<["delete" := true]>
    (<["edit" := true]> (<["get" := true]> ∅)))).

(** The errors of the parser. *)
Inductive parseError :=
  | ErrMissingNoteKey        (* "Missing note key parameter." *)
  | ErrInvalidIdentifier.    (* "Invalid identifier passed" *)

(** [strings.HasPrefix(arg, tagPrefix)] *)
Definition HasPrefix_tag (arg : string) : bool :=
  match arg with
  | String c _ => bool_decide (c = "@"%char)
  | EmptyString => false
  end.

(** [strings.TrimPrefix(arg, tagPrefix)] *)
Definition TrimPrefix_tag (arg : string) : string :=
  match arg with
  | String c rest => if bool_decide (c = "@"%char) then rest else arg
  | EmptyString => arg
  end.

Definition add_Tag (tag : string) (p : CommandLineParams.t) : CommandLineParams.t :=
  CommandLineParams.mk (CommandLineParams.Content p)
    (CommandLineParams.Tags p ++ [tag]) (CommandLineParams.Action p)
    (CommandLineParams.Key p) (CommandLineParams.Flags p)
    (CommandLineParams.Piped p).

Definition set_Action (a : string) (p : CommandLineParams.t) : CommandLineParams.t :=
  CommandLineParams.mk (CommandLineParams.Content p)
    (CommandLineParams.Tags p) a (CommandLineParams.Key p)
    (CommandLineParams.Flags p) (CommandLineParams.Piped p).

Definition set_Key (k : string) (p : CommandLineParams.t) : CommandLineParams.t :=
  CommandLineParams.mk (CommandLineParams.Content p)
    (CommandLineParams.Tags p) (CommandLineParams.Action p) k
    (CommandLineParams.Flags p) (CommandLineParams.Piped p).

(** Check if arguments have any tags defined if so pop it from the list
    and save. The parameters of the parser go in and come out; the result
    is the arguments that are left. When the last argument is a tag the
    loop returns the empty slice, which is also what is left of the
    arguments then. *)
Fixpoint getTags (args : list string) (p : CommandLineParams.t)
    : list string * CommandLineParams.t :=
  match args with
  | [] => ([], p)
  | arg :: rest =>
      if HasPrefix_tag arg
      then getTags rest (add_Tag (TrimPrefix_tag arg) p)
      else (args, p)
  end.

(** GetAction retrieves custom user action from command line. The loop
    over [CustomActions] can stop at one entry only, the one whose name
    is the first argument. [TrimSpace] is [strings.TrimSpace]. *)
Definition getAction (TrimSpace : string → string) (args : list string)
    (p : CommandLineParams.t)
    : (list string * option parseError) * CommandLineParams.t :=
  match args with
  | [] => ((args, None), p)
  | action :: rest =>
      match CustomActions !! action with
      | None => ((args, None), p)
      | Some requiresKey =>
          let p := set_Action action p in
          if requiresKey : bool then
            match rest with
            | [] => (([], Some ErrMissingNoteKey), p)
            | key :: rest' =>
                if bool_decide (Z.of_nat (String.length key) ≠ SimpleNoteKeyLength)
                then (([], Some ErrInvalidIdentifier), p)
                else ((rest', None), set_Key (TrimSpace key) p)
            end
          else ((rest, None), p)
      end
  end.

(** [strings.TrimSpace] on a text of bytes below 128: the white space is
    the space and the bytes 9 to 13. *)
Definition isSpace (c : ascii) : bool :=
  let n := N_of_ascii c in
  bool_decide (n = 32%N) || (bool_decide (9 ≤ n)%N && bool_decide (n ≤ 13)%N).

Fixpoint trimLeft (s : string) : string :=
  match s with
  | String c s' => if isSpace c then trimLeft s' else s
  | EmptyString => s
  end.

Fixpoint trimRight (s : string) : string :=
  match s with
  | String c s' =>
      match trimRight s' with
      | EmptyString => if isSpace c then "" else String c ""
      | t => String c t
      end
  | EmptyString => s
  end.

Definition trimSpaces (s : string) : string := trimRight (trimLeft s).

(** Thirty-two spaces. *)
Definition blankKey : string := "                                ".

(** ** Editing a note *)



(** The libraries of [X] with the timestamps of the repository's helper. *)
Definition with_helpers (X : Externals) : Externals :=
  mkExternals (World X) (Client_Do X) (url_Parse X) (Version X)
    (base64_EncodeToString X) (json_Marshal X) (json_Unmarshal_Note X)
    (json_Unmarshal_NoteList X) utils.GetSimpleNoteTimestamp (sort_Sort X)
    (Sprintf_noteListRecord X).

(** * The flags, the standard input and the parser (cmd.go) *)

Definition with_Flags (f : gmap string string) (p : CommandLineParams.t)
    : CommandLineParams.t :=
  CommandLineParams.mk (CommandLineParams.Content p)
    (CommandLineParams.Tags p) (CommandLineParams.Action p)
    (CommandLineParams.Key p) f (CommandLineParams.Piped p).

Definition with_Content (c : string) (p : CommandLineParams.t)
    : CommandLineParams.t :=
  CommandLineParams.mk c
    (CommandLineParams.Tags p) (CommandLineParams.Action p)
    (CommandLineParams.Key p) (CommandLineParams.Flags p)
    (CommandLineParams.Piped p).

Definition with_Piped (b : bool) (p : CommandLineParams.t)
    : CommandLineParams.t :=
  CommandLineParams.mk (CommandLineParams.Content p)
    (CommandLineParams.Tags p) (CommandLineParams.Action p)
    (CommandLineParams.Key p) (CommandLineParams.Flags p) b.

(** What [cmdFlagSet.Parse] makes of the arguments, given the defaults of
    the flags [n], [deleted] and [permanently]: the values of the three
    and the arguments that are left, or [None] when it ends the process,
    as a flag set made with [flag.ExitOnError] does on what it cannot
    read. *)
Definition flagSet : Type :=
  Z → bool → bool → list string → option (Z * bool * bool * list string).

(** Get flags retrieves all flags passed by the user. *)
Definition getFlags (flag_Parse : flagSet) (args : list string)
    (p : CommandLineParams.t) : outcome CommandLineParams.t (list string) :=
  match flag_Parse (-1) false false args with
  | None => Exits p
  | Some (flagListItemCount, flagListShowDeleted, flagDeletePermanently, rest) =>
      match
        n ← utils.ConvertToString (utils.of_int flagListItemCount) ;
        deleted ← utils.ConvertToString (utils.of_bool flagListShowDeleted) ;
        permanently ← utils.ConvertToString (utils.of_bool flagDeletePermanently) ;
        Some (<["permanently" := permanently]>
                (<["deleted" := deleted]>
                   (<["n" := n]> (CommandLineParams.Flags p))))
      with
      | Some flags => Returns rest (with_Flags flags p)
      | None => Panics p
      end
  end.

(** The errors of [reader.Read]: [io.EOF] and the others. *)
Inductive readError :=
  | io_EOF
  | io_failed (what : string).

(** [err.Error()] *)
Definition Error (e : readError) : string :=
  match e with
  | io_EOF => "EOF"
  | io_failed what => what
  end.

(** The terminal the parser runs on: what the calls of [reader.Read] to
    come give, each the bytes it read and its error, and the lines
    printed so far. *)
Record terminal := mkTerminal {
  reads : list (string * option readError);
  lines : list string
}.

(** The errors of the parser. *)
Inductive parserError :=
  | ErrAction (e : parseError)
  | ErrStdin (e : readError)
  | ErrEditor (e : error).

(** The loop of [getStdin]. An empty read with an error starts the loop
    again; the [break] after it cannot be reached. When the reads the
    terminal holds are used up the loop is still running. *)
Fixpoint getStdin_loop (reads : list (string * option readError))
    (lines : list string) : outcome terminal (string * option readError) :=
  match reads with
  | [] => OutOfFuel (mkTerminal [] lines)
  | (buf, err) :: reads =>
      let lines :=
        match err with
        | Some e => lines ++ [Error e]
        | None => lines
        end in
      if bool_decide (String.length buf = 0%nat)
      then
        match err with
        | Some _ => getStdin_loop reads lines
        | None => Returns ("", None) (mkTerminal reads lines)
        end
      else
        match err with
        | Some (io_failed what) =>
            Returns ("", Some (io_failed what)) (mkTerminal reads lines)
        | _ => Returns (buf, None) (mkTerminal reads lines)
        end
  end.

(** GetStdin retrieves STDIN string if available *)
Definition getStdin (p : CommandLineParams.t) (t : terminal)
    : outcome terminal (string * option readError) :=
  if CommandLineParams.Piped p
  then getStdin_loop (reads t) (lines t)
  else Returns ("", None) t.

(** Parse retrieves content of a note to be saved. [piped] is what
    [os.Stdin.Stat()] says: the standard input is no character device.
    [WriteToFile] is the helper as this file calls it, on the empty
    text. *)
Definition parse (flag_Parse : flagSet)
    (WriteToFile : string → string * option error)
    (TrimSpace : string → string) (piped : bool) (args : list string)
    (p : CommandLineParams.t) (t : terminal)
    : outcome (CommandLineParams.t * terminal) (option parserError) :=
  let p := with_Piped piped p in
  match getAction TrimSpace args p with
  | ((_, Some e), p) => Returns (Some (ErrAction e)) (p, t)
  | ((actionless, None), p) =>
      let '(tagless, p) := getTags actionless p in
      match getFlags flag_Parse tagless p with
      | Exits p => Exits (p, t)
      | Panics p => Panics (p, t)
      | OutOfFuel p => OutOfFuel (p, t)
      | Returns flagless p =>
          if CommandLineParams.Piped p
          then
            match getStdin p t with
            | Exits t => Exits (p, t)
            | Panics t => Panics (p, t)
            | OutOfFuel t => OutOfFuel (p, t)
            | Returns (_, Some e) t => Returns (Some (ErrStdin e)) (p, t)
            | Returns (content, None) t =>
                Returns None (with_Content content p, t)
            end
          else if bool_decide (CommandLineParams.Action p = "")
          then
            if bool_decide (len flagless > 0)
            then Returns None (with_Content (String.concat " " flagless) p, t)
            else
              match WriteToFile "" with
              | (_, Some e) => Returns (Some (ErrEditor e)) (p, t)
              | (content, None) =>
                  Returns None (with_Content (TrimSpace content) p, t)
              end
          else Returns None (p, t)
      end
  end.

(** A flag set that reads [-deleted] and [-n] with its number in front of
    the other arguments. *)
Fixpoint someFlags (n : Z) (deleted permanently : bool) (args : list string)
    : option (Z * bool * bool * list string) :=
  match args with
  | "-deleted" :: args => someFlags n true permanently args
  | "-permanently" :: args => someFlags n deleted true args
  | "-n" :: v :: args =>
      match strconv_Atoi v with
      | (n, None) => someFlags n deleted permanently args
      | (_, Some _) => None
      end
  | _ => Some (n, deleted, permanently, args)
  end.

(** A read that gave no bytes and an error: what a reader at the end of
    its input gives, each time it is asked. *)
Definition fruitless (r : string * option readError) : Prop :=
  r.1 = "" ∧ r.2 ≠ None.

(** What the loop prints for reads, one line for every error. *)
Definition complaints (rs : list (string * option readError)) : list string :=
  omap (λ r, Error <$> r.2) rs.

(** * The index filter *)

Section filter.

Implicit Types (n : Note) (notes data : list Note) (tags : list string).

Lemma CheckIn_spec t tags : utils.CheckIn t tags = true ↔ t ∈ tags.
Proof.
  induction tags as [|v tags IH]; simpl.
  - split; [done|]. by intros ?%elem_of_nil.
  - case_bool_decide as Hv.
    + subst v. split; [intros _; left|done].
    + rewrite IH. split; [by right|].
      intros [->|Hin]%elem_of_cons; [done|exact Hin].
Qed.

(** The loop over the filter tags appends the entry once when some filter
    tag is among the entry's tags, and not at all otherwise. *)
Lemma appendIfTagged_spec tags n notes :
  appendIfTagged tags n notes =
    if decide (Exists (λ t, Exists (λ f, t = f) tags) (Tags n))
    then notes ++ [n] else notes.
Proof.
  induction tags as [|t tags IH]; simpl.
  - case_decide as H; [|done].
    apply Exists_exists in H as (? & _ & H). by apply Exists_nil in H.
  - destruct (utils.CheckIn t (Tags n)) eqn:Hin.
    + apply CheckIn_spec in Hin. rewrite decide_True; [done|].
      apply Exists_exists. exists t. split; [done|]. by left.
    + rewrite IH. apply not_true_iff_false in Hin. rewrite CheckIn_spec in Hin.
      destruct (decide (Exists _ (Tags n))) as [H|H].
      * rewrite decide_True; [done|].
        apply Exists_exists in H as (x & Hx & Hf). apply Exists_exists.
        exists x. split; [done|]. by right.
      * rewrite decide_False; [done|]. intros H'. apply H.
        apply Exists_exists in H' as (x & Hx & Hf). apply Exists_exists.
        exists x. split; [done|].
        apply Exists_cons in Hf as [->|Hf]; [done|done].
Qed.

(** C5. Of every page of the index, [getAllNotes] keeps the entries, in
    the page's order and once each, for which: the entry's deleted flag is
    not 1 or the flag [deleted] is "true", and the tag filter is empty or
    one of the entry's tags equals one of the filter's tags (one match is
    enough). *)
Theorem filterPage_keeps (p : CommandLineParams.t) data notes :
  filterPage p data notes =
    notes ++ filter (keeps (includeDeleted p) (CommandLineParams.Tags p)) data.
Proof.
  unfold filterPage. revert notes.
  induction data as [|n data IH]; intros notes; simpl.
  - by rewrite app_nil_r.
  - rewrite IH. clear IH. rewrite filter_cons, appendIfTagged_spec.
    assert (Hlen : len (CommandLineParams.Tags p) > 0 ↔ CommandLineParams.Tags p ≠ []).
    { unfold len. destruct (CommandLineParams.Tags p); simpl; split; (done || lia). }
    unfold keeps at 2, includeDeleted.
    repeat case_bool_decide; repeat case_decide; simpl;
      rewrite <- ?app_assoc; simpl; try done.
    all: exfalso; intuition congruence.
Qed.

End filter.

(** * The query of a request *)

Section query.

Context {X : Externals}.

(** Copying [params] over [p] key by key: the copied value wins. *)
Lemma fold_insert_lookup (p params : gmap string string) k :
  map_fold (λ k v p, <[k := v]> p) p params !! k =
    match params !! k with Some v => Some v | None => p !! k end.
Proof.
  revert k.
  apply (map_fold_weak_ind
           (λ r m, ∀ k, r !! k = match m !! k with Some v => Some v | None => p !! k end)).
  - intros k. by rewrite lookup_empty.
  - intros i x m r Hi IH k. destruct (decide (i = k)) as [->|Hne].
    + by rewrite !lookup_insert_eq.
    + by rewrite !lookup_insert_ne.
Qed.

(** Adding every pair of [p] to [vals]: each key of [p] gets its value
    after the ones [vals] had. *)
Lemma fold_Add_lookup (vals : Values) (p : gmap string string) k :
  map_fold Values_Add vals p !! k =
    match p !! k with
    | Some v => Some (default [] (vals !! k) ++ [v])
    | None => vals !! k
    end.
Proof.
  revert k.
  apply (map_fold_weak_ind
           (λ r m, ∀ k, r !! k = match m !! k with
                                 | Some v => Some (default [] (vals !! k) ++ [v])
                                 | None => vals !! k
                                 end)).
  - intros k. by rewrite lookup_empty.
  - intros i x m r Hi IH k. unfold Values_Add.
    destruct (decide (i = k)) as [->|Hne].
    + rewrite !lookup_insert_eq. by rewrite IH, Hi.
    + by rewrite !lookup_insert_ne.
Qed.

(** The query [parseAddr] leaves in the request, key by key. *)
Lemma parseAddr_lookup (s : simpleNoteClient X) req params k :
  Query (parseAddr s req params) !! k =
    match (match params with Some ps => ps !! k | None => None end) with
    | Some v => Some (default [] (Query req !! k) ++ [v])
    | None =>
        if decide (k = "auth") then Some (default [] (Query req !! k) ++ [Token s])
        else if decide (k = "email")
             then Some (default [] (Query req !! k) ++ [Email (Cfg s)])
             else Query req !! k
    end.
Proof.
  unfold parseAddr. simpl. rewrite fold_Add_lookup.
  assert (Hp : (<["auth" := Token s]> (<["email" := Email (Cfg s)]> ∅)
                : gmap string string) !! k =
               if decide (k = "auth") then Some (Token s)
               else if decide (k = "email") then Some (Email (Cfg s)) else None).
  { repeat case_decide; subst; simplify_map_eq; done. }
  destruct params as [ps|].
  - rewrite fold_insert_lookup. destruct (ps !! k); [done|].
    rewrite Hp. by repeat case_decide.
  - rewrite Hp. by repeat case_decide.
Qed.

(** Setting the default headers leaves the query alone. *)
Lemma prepare_Query (s : simpleNoteClient X) addr method body params req vals :
  url_Parse X addr = (vals, None) →
  prepare s addr method body params = (Some req, None) →
  Query req = Query (parseAddr s (mkRequest method addr vals ∅ body) params).
Proof.
  unfold prepare, http_NewRequest. intros ->. by intros [= <-].
Qed.

(** C3, as the code has it. When the caller's parameters name a key, the
    value in the query of the request that is sent is the caller's: it
    comes after whatever the address itself carried under that key, and
    the client's own value for [auth] or [email] is not there. *)
Theorem prepare_caller_param_wins (s : simpleNoteClient X)
    addr method body (params : gmap string string) req vals k v :
  url_Parse X addr = (vals, None) →
  prepare s addr method body (Some params) = (Some req, None) →
  params !! k = Some v →
  Query req !! k = Some (default [] (vals !! k) ++ [v]).
Proof.
  intros Hu Hp Hk. rewrite (prepare_Query _ _ _ _ _ _ _ Hu Hp).
  by rewrite parseAddr_lookup, Hk.
Qed.

End query.

(** For a key the caller does not name, the client's token and email are
    the values sent. *)
Lemma prepare_auth_default :
  ∃ req, prepare (fresh (X := offline) () "T0" "me@example.org" noParams)
                 "https://simple-note.appspot.com/api2/index" MethodGet None
                 (Some {["length" := "100"]}) = (Some req, None)
         ∧ Query req !! "auth" = Some ["T0"]
         ∧ Query req !! "email" = Some ["me@example.org"]
         ∧ Query req !! "length" = Some ["100"].
Proof.
  eexists. split; [reflexivity|]. by vm_compute.
Qed.

(** C3 fails as stated: a caller that passes [auth] gets its own value
    into the query, and the client's token is not sent. *)
Lemma caller_auth_overrides_token :
  ∃ req, prepare (fresh (X := offline) () "T0" "me@example.org" noParams)
                 "https://simple-note.appspot.com/api2/index" MethodGet None
                 (Some {["auth" := "mine"]}) = (Some req, None)
         ∧ Query req !! "auth" = Some ["mine"]
         ∧ Query req !! "auth" ≠ Some ["T0"].
Proof.
  eexists. split; [reflexivity|]. by vm_compute.
Qed.

Lemma prepare_caller_param_wins_witness :
  ∃ req, prepare (fresh (X := offline) () "T0" "me@example.org" noParams)
                 "https://simple-note.appspot.com/api2/index" MethodGet None
                 (Some {["email" := "other@example.org"]}) = (Some req, None)
         ∧ Query req !! "email" = Some ["other@example.org"].
Proof.
  eexists. split; [reflexivity|]. etrans.
  - apply (prepare_caller_param_wins (X := offline)
             (fresh (X := offline) () "T0" "me@example.org" noParams)
             "https://simple-note.appspot.com/api2/index" MethodGet None
             {["email" := "other@example.org"]} _ ∅ "email" "other@example.org");
      [reflexivity|reflexivity|by vm_compute].
  - by vm_compute.
Defined.

(** * The presenter *)

Section presenter.

Context {X : Externals}.

Implicit Types (s : simpleNoteClient X) (notes sorted : list Note).

Lemma wrap_small z : minInt ≤ z ≤ maxInt → wrap z = z.
Proof.
  unfold wrap, minInt, maxInt. intros H.
  assert (Hb : 2 ^ 64 = 2 * 2 ^ 63) by reflexivity.
  assert (Ha : 0 < 2 ^ 63) by reflexivity.
  rewrite Hb. set (a := 2 ^ 63) in *.
  clearbody a. clear Hb.
  rewrite Z.mod_small; lia.
Qed.

(** The loop that parses the notes with content. *)
Lemma parsed_loop sorted acc :
  foldl (λ parsed n,
           if bool_decide (Content n ≠ "")
           then parsed ++ [parseNote X n true] else parsed) acc sorted
  = acc ++ map (λ n, parseNote X n true) (filter (λ n, Content n ≠ "") sorted).
Proof.
  revert acc. induction sorted as [|n sorted IH]; intros acc; simpl.
  - by rewrite app_nil_r.
  - rewrite IH, filter_cons. case_bool_decide; case_decide; try done.
    by rewrite <- app_assoc.
Qed.

Lemma filter_length_le sorted notes :
  sorted ≡ₚ notes →
  len (filter (λ n, Content n ≠ "") sorted) ≤ len notes.
Proof.
  intros Hp. unfold len. rewrite <- (Permutation_length Hp).
  pose proof (length_filter (λ n, Content n ≠ "") sorted). lia.
Qed.

(** What [showNotes] prints when the flag [n] spells a limit that is not
    negative. *)
Lemma showNotes_limit s notes limit :
  sort_Sort X (Less X) notes ≡ₚ notes →
  len notes ≤ maxInt →
  strconv_Atoi (index (CommandLineParams.Flags (Params s)) "n") = (limit, None) →
  0 ≤ limit →
  ∃ p, showNotes notes s
       = Returns () (printing p s)
     ∧ records p = map (λ n, parseNote X n true)
                       (present limit (sort_Sort X (Less X) notes)).
Proof.
  intros Hperm Hlen Hatoi Hlimit. unfold showNotes, present.
  rewrite parsed_loop. simpl.
  pose proof (filter_length_le _ _ Hperm) as Hle.
  set (kept := filter (λ n, Content n ≠ "") (sort_Sort X (Less X) notes)) in *.
  assert (Hmap : len (map (λ n, parseNote X n true) kept) = len kept).
  { unfold len. by rewrite length_map. }
  rewrite Hmap. case_bool_decide as Hz.
  - eexists. split; [reflexivity|]. simpl.
    destruct kept; [|unfold len in Hz; simpl in Hz; lia].
    by rewrite drop_nil.
  - assert (Hflag : index (CommandLineParams.Flags (Params s)) "n" ≠ "-1").
    { intros E. rewrite E in Hatoi. vm_compute in Hatoi.
      injection Hatoi as <-. lia. }
    rewrite (bool_decide_eq_true_2 _ Hflag), Hatoi.
    assert (Hk : 0 ≤ len kept) by (unfold len; lia).
    unfold slice_from. rewrite Hmap.
    set (n := if bool_decide (limit > len kept) then len kept else limit).
    assert (Hn : n = Z.min limit (len kept)).
    { unfold n. case_bool_decide; lia. }
    unfold int_sub. rewrite wrap_small by (unfold minInt, maxInt in *; lia).
    rewrite bool_decide_eq_true_2 by lia.
    eexists. split; [reflexivity|]. simpl.
    rewrite skipn_map. f_equal. f_equal. unfold len in *. lia.
Qed.

(** What [showNotes] prints when the flag [n] is "-1": every note with
    content. *)
Lemma showNotes_unlimited s notes :
  index (CommandLineParams.Flags (Params s)) "n" = "-1" →
  ∃ p, showNotes notes s
       = Returns () (printing p s)
     ∧ records p = map (λ n, parseNote X n true)
                       (filter (λ n, Content n ≠ "") (sort_Sort X (Less X) notes)).
Proof.
  intros Hflag. unfold showNotes. rewrite parsed_loop, Hflag. simpl.
  set (kept := filter (λ n, Content n ≠ "") (sort_Sort X (Less X) notes)).
  case_bool_decide as Hz.
  - eexists. split; [reflexivity|]. simpl.
    destruct kept; [done|]. unfold len in Hz. simpl in Hz. lia.
  - eexists. split; [reflexivity|]. done.
Qed.

(** Three notes of which the first is the oldest and the second the
    newest can be sorted in one way only. *)
Lemma sorts_three (less : Note → Note → bool) n1 n2 n3 l' :
  sorts less [n1; n2; n3] l' →
  less n1 n2 = true → less n1 n3 = true → less n3 n2 = true →
  l' = [n1; n3; n2].
Proof.
  intros [Hp Hs] H12 H13 H32.
  symmetry in Hp. apply permutations_Permutation in Hp. simpl in Hp.
  repeat (apply elem_of_cons in Hp as [->|Hp]);
    try (by apply elem_of_nil in Hp); try done.
  all: repeat match goal with
       | H : StronglySorted _ (_ :: _) |- _ =>
           apply StronglySorted_inv in H as [? ?]
       end;
       decompose_Forall_hyps; congruence.
Qed.

(** C6. When the flag [n] spells a limit that is not negative, [showNotes]
    shows the records of the notes that are left when the input is sorted
    by [sort.Sort] (ascending by modification timestamp), the notes without
    content are dropped and, of the rest, the last [min limit count] are
    kept. In particular three notes with content and the timestamps 100,
    300 and 200, shown with [n] = "2", come out as the note of 200 and
    then the note of 300. *)
Theorem showNotes_sorts_drops_limits :
  (∀ s notes limit,
     sorts (Less X) notes (sort_Sort X (Less X) notes) →
     len notes ≤ maxInt →
     strconv_Atoi (index (CommandLineParams.Flags (Params s)) "n") = (limit, None) →
     0 ≤ limit →
     ∃ p, showNotes notes s
          = Returns () (printing p s)
        ∧ records p = map (λ n, parseNote X n true)
                          (present limit (sort_Sort X (Less X) notes)))
  ∧ (∀ s n100 n300 n200,
       GetSimpleNoteTimestamp X (ModifyDate n100) = 100 →
       GetSimpleNoteTimestamp X (ModifyDate n300) = 300 →
       GetSimpleNoteTimestamp X (ModifyDate n200) = 200 →
       Content n100 ≠ "" → Content n300 ≠ "" → Content n200 ≠ "" →
       sorts (Less X) [n100; n300; n200]
             (sort_Sort X (Less X) [n100; n300; n200]) →
       index (CommandLineParams.Flags (Params s)) "n" = "2" →
       ∃ p, showNotes [n100; n300; n200] s
            = Returns () (printing p s)
          ∧ records p = [parseNote X n200 true; parseNote X n300 true]).
Proof.
  split.
  - intros s notes limit [Hp _]. by apply showNotes_limit.
  - intros s n100 n300 n200 H1 H3 H2 C1 C3 C2 Hs Hflag.
    destruct (showNotes_limit s [n100; n300; n200] 2) as (p & Hrun & Hrec).
    + apply Hs.
    + by vm_compute.
    + by rewrite Hflag.
    + done.
    + exists p. split; [done|]. rewrite Hrec.
      rewrite (sorts_three _ _ _ _ _ Hs).
      * unfold present. rewrite !filter_cons, filter_nil.
        by rewrite !decide_True.
      * unfold Less. rewrite H1, H3. by apply bool_decide_eq_true_2.
      * unfold Less. rewrite H1, H2. by apply bool_decide_eq_true_2.
      * unfold Less. rewrite H2, H3. by apply bool_decide_eq_true_2.
Qed.

(** [strconv.Atoi] gives an [int]. *)
Lemma strconv_Atoi_range str n :
  strconv_Atoi str = (n, None) → minInt ≤ n ≤ maxInt.
Proof.
  unfold strconv_Atoi.
  destruct (match str with
            | String "-"%char r => (true, r)
            | String "+"%char r => (false, r)
            | _ => (false, str)
            end) as [neg body].
  destruct body; [done|].
  destruct (digits _ 0) as [v|]; [|done].
  case_bool_decide; [|done]. by intros [= <-].
Qed.

(** A difference one wrap above [int]. *)
Lemma wrap_above z : maxInt < z ≤ maxInt + 2 ^ 63 → wrap z = z - 2 ^ 64.
Proof.
  unfold wrap, minInt, maxInt. intros H.
  assert (Hb : 2 ^ 64 = 2 * 2 ^ 63) by reflexivity.
  assert (Ha : 0 < 2 ^ 63) by reflexivity.
  rewrite Hb. set (a := 2 ^ 63) in *. clearbody a. clear Hb.
  replace (z - - a) with ((z - a) + 1 * (2 * a)) by lia.
  rewrite Z_mod_plus_full, Z.mod_small; lia.
Qed.

(** C8 fails on the code. When the flag [n] spells a negative number and
    is not "-1", and some note has content, [showNotes] computes a cut
    that lies outside the parsed records, and the slice expression
    panics: nothing is shown. *)
Theorem showNotes_negative_limit_panics s notes n :
  sort_Sort X (Less X) notes ≡ₚ notes →
  len notes ≤ maxInt →
  index (CommandLineParams.Flags (Params s)) "n" ≠ "-1" →
  strconv_Atoi (index (CommandLineParams.Flags (Params s)) "n") = (n, None) →
  n < 0 →
  filter (λ n, Content n ≠ "") (sort_Sort X (Less X) notes) ≠ [] →
  showNotes notes s = Panics s.
Proof.
  intros Hperm Hlen Hflag Hatoi Hneg Hkept. unfold showNotes.
  rewrite parsed_loop. simpl.
  pose proof (filter_length_le _ _ Hperm) as Hle.
  pose proof (strconv_Atoi_range _ _ Hatoi) as Hn.
  set (kept := filter (λ n, Content n ≠ "") (sort_Sort X (Less X) notes)) in *.
  assert (Hmap : len (map (λ n, parseNote X n true) kept) = len kept).
  { unfold len. by rewrite length_map. }
  assert (Hpos : 0 < len kept).
  { destruct kept; [done|]. unfold len. simpl. lia. }
  rewrite Hmap, bool_decide_eq_false_2 by lia.
  rewrite (bool_decide_eq_true_2 _ Hflag), Hatoi.
  rewrite (bool_decide_eq_false_2 (n > len kept)) by lia.
  unfold slice_from, int_sub. rewrite Hmap.
  destruct (decide (len kept - n ≤ maxInt)) as [Hfit|Hover].
  - rewrite wrap_small by (unfold minInt, maxInt in *; lia).
    by rewrite bool_decide_eq_false_2 by lia.
  - rewrite wrap_above by (unfold minInt, maxInt in *; lia).
    rewrite bool_decide_eq_false_2; [done|].
    assert (Hb : 2 ^ 64 = 2 * 2 ^ 63) by reflexivity.
    unfold minInt, maxInt in *. lia.
Qed.

Lemma StronglySorted_filter_impl {A} (R R' : relation A) (P : A → Prop)
    `{∀ x, Decision (P x)} (l : list A) :
  (∀ x y, R x y → R' x y) →
  StronglySorted R l → StronglySorted R' (filter P l).
Proof.
  intros HR. induction 1 as [|x l Hs IH Hall]; [constructor|].
  rewrite filter_cons. case_decide; [|done].
  constructor; [done|].
  apply Forall_forall. intros y Hy.
  apply list_elem_of_filter in Hy as [_ Hy].
  apply HR. by eapply Forall_forall in Hall.
Qed.

(** C7, as the code has it. With the flag [n] at "-1", [showNotes] shows
    the records of the notes with content, each once, in an order in
    which no note is newer than one shown after it. Which of two notes
    with the same modification timestamp comes first is left to
    [sort.Sort]. *)
Theorem showNotes_ascending s notes :
  sorts (Less X) notes (sort_Sort X (Less X) notes) →
  index (CommandLineParams.Flags (Params s)) "n" = "-1" →
  ∃ p shown,
    showNotes notes s
    = Returns () (printing p s)
    ∧ records p = map (λ n, parseNote X n true) shown
    ∧ shown ≡ₚ filter (λ n, Content n ≠ "") notes
    ∧ StronglySorted
        (λ a b, GetSimpleNoteTimestamp X (ModifyDate a)
                ≤ GetSimpleNoteTimestamp X (ModifyDate b)) shown.
Proof.
  intros [Hperm Hsorted] Hflag.
  destruct (showNotes_unlimited s notes Hflag) as (p & Hrun & Hrec).
  exists p, (filter (λ n, Content n ≠ "") (sort_Sort X (Less X) notes)).
  split; [done|]. split; [done|]. split.
  - by rewrite Hperm.
  - eapply StronglySorted_filter_impl; [|exact Hsorted].
    intros x y Hless. unfold Less in Hless.
    apply bool_decide_eq_false in Hless. lia.
Qed.

End presenter.

(** A check of what [sort.Sort] promises, for closed lists. *)
Lemma sorts_checked (less : Note → Note → bool) l l' :
  bool_decide (l' ≡ₚ l) = true →
  bool_decide (StronglySorted (λ x y, less y x = false) l') = true →
  sorts less l l'.
Proof. intros H1%bool_decide_eq_true H2%bool_decide_eq_true. by split. Qed.

Lemma showNotes_sorts_drops_limits_witness :
  ∃ p, showNotes [note "k1" "one" "100"; note "k3" "three" "300";
                  note "k2" "two" "200"] (lister "2")
       = Returns () (printing p (lister "2"))
     ∧ records p = ["k2 200 two"; "k3 300 three"].
Proof.
  destruct (proj1 (showNotes_sorts_drops_limits (X := offline)) (lister "2")
              [note "k1" "one" "100"; note "k3" "three" "300";
               note "k2" "two" "200"] 2) as (p & Hrun & Hrec).
  - apply sorts_checked; by vm_compute.
  - by vm_compute.
  - by vm_compute.
  - done.
  - exists p. split; [exact Hrun|]. rewrite Hrec. by vm_compute.
Defined.


Lemma showNotes_negative_limit_panics_witness :
  showNotes [note "k1" "one" "100"] (lister "-2") = Panics (lister "-2").
Proof.
  apply (showNotes_negative_limit_panics (X := offline) (lister "-2")
           [note "k1" "one" "100"] (-2)); by vm_compute.
Defined.

Lemma showNotes_ascending_witness :
  ∃ p shown,
    showNotes [note "k1" "one" "100"; note "k3" "three" "300";
               note "k2" "two" "200"] (lister "-1")
    = Returns () (printing p (lister "-1"))
    ∧ records p = map (λ n, parseNote offline n true) shown
    ∧ shown ≡ₚ [note "k1" "one" "100"; note "k3" "three" "300";
                note "k2" "two" "200"]
    ∧ StronglySorted
        (λ a b, GetSimpleNoteTimestamp offline (ModifyDate a)
                ≤ GetSimpleNoteTimestamp offline (ModifyDate b)) shown.
Proof.
  apply (showNotes_ascending (X := offline) (lister "-1")
           [note "k1" "one" "100"; note "k3" "three" "300";
            note "k2" "two" "200"]).
  - apply sorts_checked; by vm_compute.
  - by vm_compute.
Defined.

(** C7 fails as stated. On a slice of seven notes the sort of the Go
    releases with the quicksort of package sort keeps what [sort.Sort]
    promises, and the two notes modified at the same time come out in the
    opposite order: "a" stands before "b" in the input, and the record of
    "b" is shown before the record of "a". *)
Lemma showNotes_reorders_ties :
  sorts (Less offline) tied (sort_Sort offline (Less offline) tied)
  ∧ GetSimpleNoteTimestamp offline (ModifyDate (note "a" "first" "5"))
    = GetSimpleNoteTimestamp offline (ModifyDate (note "b" "second" "5"))
  ∧ before (note "a" "first" "5") (note "b" "second" "5") tied
  ∧ ∃ p, showNotes tied (lister "-1")
         = Returns () (printing p (lister "-1"))
       ∧ before (parseNote offline (note "b" "second" "5") true)
                (parseNote offline (note "a" "first" "5") true) (records p).
Proof.
  split; [apply sorts_checked; by vm_compute|].
  split; [by vm_compute|].
  split; [exists 0%nat, 3%nat; split; [lia|by vm_compute]|].
  destruct (showNotes_unlimited (X := offline) (lister "-1") tied)
    as (p & Hrun & Hrec); [by vm_compute|].
  exists p. split; [exact Hrun|]. rewrite Hrec. clear Hrun Hrec.
  exists 3%nat, 4%nat.
  split.
  - clear. lia.
  - vm_compute.
    split.
    + reflexivity.
    + reflexivity.
Qed.

(** * The dispatcher *)

Section dispatcher.

Context {X : Externals}.

Implicit Types (s : simpleNoteClient X) (req : Request) (resp : Response).


(** [Authorize] when the login answers anything else: the token stays. *)
Lemma Authorize_refused s authreq resp w :
  http_NewRequest X MethodPost authorizeUrl (Some (encodedBody X (Cfg s)))
    = (Some authreq, None) →
  Client_Do X (Client s) authreq = ((Some resp, None), w) →
  StatusCode resp ≠ StatusOK →
  Authorize s
  = Returns (Some (ErrAuthorize (StatusCode resp)))
            (sent s authreq (Some resp, None) w).
Proof.
  intros Hreq Hdo Hcode. unfold Authorize. rewrite Hreq.
  unfold mbind, M_bind, bind, Do. rewrite Hdo. simpl.
  by rewrite bool_decide_eq_true_2.
Qed.


(** One round of [makeRequest] that is answered with a status the
    dispatcher hands on. *)
Lemma makeRequest_answered fuel s addr method body params req resp w :
  prepare s addr method body params = (Some req, None) →
  Client_Do X (Client s) req = ((Some resp, None), w) →
  StatusCode resp ≠ StatusUnauthorized → StatusCode resp ≠ StatusForbidden →
  StatusCode resp ≠ StatusInternalServerError →
  StatusCode resp ≠ StatusPreconditionFailed →
  makeRequest (S fuel) addr method body params s =
    Returns ((ReadAll resp).1, (ReadAll resp).2, StatusCode resp)
            (sent s req (Some resp, None) w).
Proof.
  intros Hreq Hdo H1 H2 H3 H4. simpl. rewrite Hreq.
  unfold mbind, M_bind, bind, Do. rewrite Hdo.
  rewrite !bool_decide_eq_false_2 by done. simpl.
  by destruct (ReadAll resp).
Qed.



End dispatcher.


(** * What a run puts on the wire *)

Section wire.

Context {X : Externals}.

Implicit Types (s : simpleNoteClient X) (x : exchange) (new : list exchange).

Lemma extends_refl s : extends s [] s.
Proof. unfold extends. by rewrite app_nil_r. Qed.

Lemma extends_trans s1 s2 s3 new1 new2 :
  extends s1 new1 s2 → extends s2 new2 s3 → extends s1 (new1 ++ new2) s3.
Proof.
  intros (H1 & H2 & H3) (H4 & H5 & H6). unfold extends.
  rewrite H4, H1, H5, H2, H6, H3. by rewrite app_assoc.
Qed.

Lemma extends_sent s req r w : extends s [(req, r)] (sent s req r w).
Proof. done. Qed.

Lemma extends_with_Token s new s' t :
  extends s new s' → extends s new (with_Token t s').
Proof. done. Qed.


(** [Authorize] calls the login at most once, and nothing else. *)
Lemma Authorize_wire s :
  ∃ new, extends s new (final (Authorize s))
         ∧ Forall (is_login X (Cfg s)) new.
Proof.
  unfold Authorize.
  destruct (http_NewRequest X MethodPost authorizeUrl _)
    as [[req|] [e|]] eqn:Hreq; simpl;
    try (exists []; split; [apply extends_refl|constructor]).
  unfold mbind, M_bind, bind, Do.
  destruct (Client_Do X (Client s) req) as [[resp err] w] eqn:Hdo.
  exists [(req, (resp, err))]. split.
  - destruct err as [e|], resp as [resp|]; simpl; try apply extends_sent.
    case_bool_decide; simpl; [apply extends_sent|].
    destruct (ReadAll resp) as [code [e|]]; simpl; apply extends_sent.
  - constructor; [|constructor]. exact Hreq.
Qed.

(** [makeRequest] calls the login and the address it was given, and
    nothing else; when it returns a status, that is the status of the
    last call, which was made to the address and answered. *)
Lemma makeRequest_wire fuel addr method body params s :
  ∃ new,
    extends s new (final (makeRequest fuel addr method body params s))
    ∧ Forall (λ x, is_login X (Cfg s) x
                   ∨ is_call X (Cfg s) addr method body params x) new
    ∧ ∀ b e code s',
        makeRequest fuel addr method body params s = Returns (b, e, code) s' →
        code ≠ 0 →
        ∃ new' req resp,
          new = new' ++ [(req, (Some resp, None))]
          ∧ is_call X (Cfg s) addr method body params (req, (Some resp, None))
          ∧ StatusCode resp = code ∧ ReadAll resp = (b, e).
Proof.
  revert s. induction fuel as [|fuel IH]; intros s.
  { exists []. split; [apply extends_refl|]. split; [constructor|done]. }
  simpl.
  destruct (prepare s addr method body params) as [[req|] [e|]] eqn:Hreq;
    try (exists []; split; [apply extends_refl|]; split; [constructor|];
         intros b e' code s' [= _ _ <- _] Hc; done);
    try (exists []; split; [apply extends_refl|]; split; [constructor|]; done).
  unfold mbind, M_bind, bind, Do.
  destruct (Client_Do X (Client s) req) as [[resp err] w] eqn:Hdo.
  assert (Hcall : is_call X (Cfg s) addr method body params (req, (resp, err))).
  { by exists s. }
  destruct resp as [resp|]; simpl.
  2: { exists [(req, (None, err))]. split; [apply extends_sent|].
       split; [constructor; [by right|constructor]|done]. }
  destruct err as [e|]; simpl.
  { exists [(req, (Some resp, Some e))]. split; [apply extends_sent|].
    split; [constructor; [by right|constructor]|].
    intros b e' code s' [= _ _ <- _] Hc; done. }
  set (s1 := sent s req (Some resp, None) w).
  destruct (bool_decide (StatusCode resp = StatusForbidden)
            || bool_decide (StatusCode resp = StatusUnauthorized)) eqn:Hauth.
  - destruct (Authorize_wire s1) as (newA & HextA & HallA).
    destruct (Authorize s1) as [[e|] s2|s2|s2|s2] eqn:HA; simpl in *.
    + exists ((req, (Some resp, None)) :: newA). split.
      { apply (extends_trans s s1 s2 [_] newA); [apply extends_sent|done]. }
      split.
      { constructor; [by right|].
        eapply Forall_impl; [exact HallA|]. intros x Hx. by left. }
      intros b e' code s' [= _ _ <- _] Hc; done.
    + destruct (IH s2) as (new2 & Hext2 & Hall2 & Hret2).
      assert (Hcfg : Cfg s2 = Cfg s) by apply HextA.
      rewrite Hcfg in *.
      exists ((req, (Some resp, None)) :: newA ++ new2). split.
      { apply (extends_trans s s1 _ [_] (newA ++ new2)); [apply extends_sent|].
        by apply (extends_trans s1 s2 _ newA new2). }
      split.
      { constructor; [by right|]. apply Forall_app. split; [|done].
        eapply Forall_impl; [exact HallA|]. intros x Hx. by left. }
      intros b e code s' Hrun Hc.
      destruct (Hret2 b e code s' Hrun Hc) as (new' & req' & resp' & -> & H').
      exists ((req, (Some resp, None)) :: newA ++ new'), req', resp'.
      split; [|done]. simpl. by rewrite app_assoc.
    + exists ((req, (Some resp, None)) :: newA). split.
      { apply (extends_trans s s1 s2 [_] newA); [apply extends_sent|done]. }
      split; [|done].
      constructor; [by right|].
      eapply Forall_impl; [exact HallA|]. intros x Hx. by left.
    + exists ((req, (Some resp, None)) :: newA). split.
      { apply (extends_trans s s1 s2 [_] newA); [apply extends_sent|done]. }
      split; [|done].
      constructor; [by right|].
      eapply Forall_impl; [exact HallA|]. intros x Hx. by left.
    + exists ((req, (Some resp, None)) :: newA). split.
      { apply (extends_trans s s1 s2 [_] newA); [apply extends_sent|done]. }
      split; [|done].
      constructor; [by right|].
      eapply Forall_impl; [exact HallA|]. intros x Hx. by left.
  - destruct (bool_decide (StatusCode resp = StatusInternalServerError)
              || bool_decide (StatusCode resp = StatusPreconditionFailed)) eqn:Hretry.
    + destruct (IH s1) as (new2 & Hext2 & Hall2 & Hret2).
      exists ((req, (Some resp, None)) :: new2). split.
      { apply (extends_trans s s1 _ [_] new2); [apply extends_sent|done]. }
      split; [constructor; [by right|done]|].
      intros b e code s' Hrun Hc.
      destruct (Hret2 b e code s' Hrun Hc) as (new' & req' & resp' & -> & H').
      by exists ((req, (Some resp, None)) :: new'), req', resp'.
    + destruct (ReadAll resp) as [response rerr] eqn:Hread. simpl.
      exists [(req, (Some resp, None))]. split; [apply extends_sent|].
      split; [constructor; [by right|constructor]|].
      intros b e code s' [= <- <- <- _] Hc.
      by exists [], req, resp.
Qed.

Lemma is_call_fields cfg addr method body params x :
  is_call X cfg addr method body params x →
  Method x.1 = method ∧ URL x.1 = addr ∧ Body x.1 = body.
Proof.
  intros (s & _ & H). unfold prepare, http_NewRequest in H.
  destruct (url_Parse X addr) as [vals [e|]]; [done|].
  injection H as H. by rewrite <- H.
Qed.


Lemma prepare_ok s addr method body params :
  (url_Parse X addr).2 = None →
  ∃ req, prepare s addr method body params = (Some req, None).
Proof.
  unfold prepare, http_NewRequest.
  destruct (url_Parse X addr) as [vals [e|]]; [done|]. by eexists.
Qed.


(** [fetchNote], when it returns, has called the login and the address of
    the note with GET, and nothing else. *)
Lemma fetchNote_wire fuel n s note s' :
  fetchNote fuel n s = Returns note s' →
  ∃ new, extends s new s'
         ∧ Forall (λ x, is_login X (Cfg s) x
                        ∨ is_call X (Cfg s) (noteUrl (Key n)) MethodGet
                                  None None x) new.
Proof.
  unfold fetchNote, mbind, M_bind, bind.
  destruct (makeRequest_wire fuel (noteUrl (Key n)) MethodGet None None s)
    as (new & Hext & Hall & _).
  destruct (makeRequest fuel _ _ _ _ s) as [[[b e] code] s1|?|?|?]; try done.
  simpl in Hext. destruct e as [e|]; [done|].
  case_bool_decide; [done|].
  destruct (json_Unmarshal_Note X b) as [i [e|]]; [done|].
  intros [= <- <-]. by exists new.
Qed.



End wire.


(** * Paging through the index *)

(** What the page loop does to the notes it was given is to put after
    them what it makes of the page on its own. *)
Lemma filterPage_app (p : CommandLineParams.t) data notes :
  filterPage p data notes = notes ++ filterPage p data [].
Proof.
  unfold filterPage.
  set (f := λ (notes : Notes) (n : Note),
              if bool_decide (index (CommandLineParams.Flags p) "deleted" ≠ "true")
                 && bool_decide (Deleted n = 1)
              then notes
              else if bool_decide (len (CommandLineParams.Tags p) > 0)
              then appendIfTagged (CommandLineParams.Tags p) n notes
              else notes ++ [n]).
  assert (Hf : ∀ notes n, f notes n = notes ++ f [] n).
  { intros ns n. unfold f. rewrite !appendIfTagged_spec.
    destruct (bool_decide (index (CommandLineParams.Flags p) "deleted" ≠ "true")
              && bool_decide (Deleted n = 1)); [by rewrite app_nil_r|].
    destruct (bool_decide (len (CommandLineParams.Tags p) > 0)); [|reflexivity].
    case_decide; [reflexivity|by rewrite app_nil_r]. }
  revert notes. induction data as [|n data IH]; intros notes; simpl.
  - by rewrite app_nil_r.
  - rewrite (IH (f notes n)), (IH (f [] n)), (Hf notes n).
    by rewrite <- app_assoc.
Qed.

Section paging.

Context {X : Externals}.

Implicit Types (s : simpleNoteClient X) (notes : list Note).

(** A page with a continuation mark: [getAllNotes] asks again, with the
    mark it was called with, and appends what comes back to what it has. *)
Lemma getAllNotes_continues fuel notes mark s b s1 l newNotes s2 :
  makeRequest fuel (baseUrl +:+ indexEndpoint) MethodGet None
              (Some (qparams mark)) s = Returns (b, None, StatusOK) s1 →
  json_Unmarshal_NoteList X b = (l, None) →
  Mark l ≠ "" →
  getAllNotes fuel (filterPage (Params s) (Data l) notes) mark s1
  = Returns (newNotes, None) s2 →
  getAllNotes (S fuel) notes mark s
  = Returns (filterPage (Params s) (Data l) notes ++ newNotes, None) s2.
Proof.
  intros Hreq Hl Hmark Hrec. simpl. unfold mbind, M_bind, bind.
  rewrite Hreq. simpl. rewrite Hl.
  rewrite (bool_decide_eq_true_2 _ Hmark). by rewrite Hrec.
Qed.

(** A page with a continuation mark, when the call for the rest has not
    come back: neither has this one. *)
Lemma getAllNotes_waits fuel notes mark s b s1 l s2 :
  makeRequest fuel (baseUrl +:+ indexEndpoint) MethodGet None
              (Some (qparams mark)) s = Returns (b, None, StatusOK) s1 →
  json_Unmarshal_NoteList X b = (l, None) →
  Mark l ≠ "" →
  getAllNotes fuel (filterPage (Params s) (Data l) notes) mark s1
  = OutOfFuel s2 →
  getAllNotes (S fuel) notes mark s = OutOfFuel s2.
Proof.
  intros Hreq Hl Hmark Hrec. simpl. unfold mbind, M_bind, bind.
  rewrite Hreq. simpl. rewrite Hl.
  rewrite (bool_decide_eq_true_2 _ Hmark). by rewrite Hrec.
Qed.

(** What [getAllNotes] returns without an error starts with the notes it
    was given. *)
Lemma getAllNotes_prefix fuel notes mark s r s' :
  getAllNotes fuel notes mark s = Returns (r, None) s' →
  ∃ rest, r = notes ++ rest.
Proof.
  revert notes s r s'. induction fuel as [|fuel IH]; intros notes s r s'; [done|].
  simpl. unfold mbind, M_bind, bind.
  destruct (makeRequest fuel _ _ _ _ s) as [[[b e] code] s1|?|?|?]; try done.
  destruct e; [done|]. case_bool_decide; [done|].
  destruct (json_Unmarshal_NoteList X b) as [l [e|]]; [done|].
  rewrite filterPage_app. case_bool_decide.
  - destruct (getAllNotes fuel _ mark s1) as [[newNotes [e|]] s2|?|?|?];
      try done.
    intros [= <- <-]. rewrite <- app_assoc. by eexists.
  - intros [= <- <-]. by eexists.
Qed.

(** C1 fails on the code. When a page has a continuation mark and the
    paging ends, the result holds what was accumulated up to and
    including that page twice over before anything else: the recursive
    call is given the accumulated notes, returns a list that starts with
    them, and that list is appended to them again. *)
Theorem getAllNotes_repeats_accumulated fuel notes mark s b s1 l r s2 :
  makeRequest fuel (baseUrl +:+ indexEndpoint) MethodGet None
              (Some (qparams mark)) s = Returns (b, None, StatusOK) s1 →
  json_Unmarshal_NoteList X b = (l, None) →
  Mark l ≠ "" →
  getAllNotes (S fuel) notes mark s = Returns (r, None) s2 →
  ∃ rest,
    r = filterPage (Params s) (Data l) notes
        ++ filterPage (Params s) (Data l) notes ++ rest.
Proof.
  intros Hreq Hl Hmark. simpl. unfold mbind, M_bind, bind.
  rewrite Hreq. simpl. rewrite Hl.
  rewrite (bool_decide_eq_true_2 _ Hmark).
  destruct (getAllNotes fuel _ mark s1) as [[newNotes [e|]] s3|?|?|?] eqn:Hrec;
    try done.
  intros [= <- <-].
  destruct (getAllNotes_prefix _ _ _ _ _ _ Hrec) as (rest & ->). by exists rest.
Qed.

(** Every call [getAllNotes] makes to the index carries the parameters of
    the mark it was called with, at every depth of the recursion. *)
Lemma getAllNotes_wire fuel notes mark s :
  ∃ new,
    extends s new (final (getAllNotes fuel notes mark s))
    ∧ Forall (λ x, is_login X (Cfg s) x
                   ∨ is_call X (Cfg s) (baseUrl +:+ indexEndpoint) MethodGet
                             None (Some (qparams mark)) x) new.
Proof.
  revert notes s. induction fuel as [|fuel IH]; intros notes s.
  { exists []. split; [apply extends_refl|constructor]. }
  simpl. unfold mbind, M_bind, bind.
  destruct (makeRequest_wire fuel (baseUrl +:+ indexEndpoint) MethodGet None
                             (Some (qparams mark)) s) as (new1 & Hext1 & Hall1 & _).
  destruct (makeRequest fuel _ _ _ _ s) as [[[b e] code] s1|?|?|?];
    simpl in *; try by exists new1.
  destruct e; [by exists new1|]. case_bool_decide; [by exists new1|].
  destruct (json_Unmarshal_NoteList X b) as [l [e|]]; [by exists new1|].
  case_bool_decide; [|by exists new1].
  destruct (IH (filterPage (Params s) (Data l) notes) s1) as (new2 & Hext2 & Hall2).
  assert (Hcfg : Cfg s1 = Cfg s) by apply Hext1. rewrite Hcfg in Hall2.
  exists (new1 ++ new2). split; [|by apply Forall_app].
  destruct (getAllNotes fuel _ mark s1) as [[newNotes [e|]] s2|?|?|?];
    simpl in *; by eapply extends_trans.
Qed.

(** An index call for the mark [""] carries [length=100] and no mark. *)
Lemma index_call_unmarked cfg x :
  url_Parse X (baseUrl +:+ indexEndpoint) = (∅, None) →
  is_call X cfg (baseUrl +:+ indexEndpoint) MethodGet None (Some (qparams "")) x →
  unmarked x.
Proof.
  intros Hurl Hcall. pose proof (is_call_fields _ _ _ _ _ _ Hcall) as (_ & Hu & _).
  destruct Hcall as (s & _ & Hreq). unfold unmarked.
  rewrite (prepare_Query _ _ _ _ _ _ _ Hurl Hreq).
  split; [done|]. rewrite !parseAddr_lookup. simpl. split; reflexivity.
Qed.

End paging.

(** On the server that pages in turn the two pages come back as the note
    of the first page twice and then the note of the second. *)
Lemma getAllNotes_repeats_accumulated_witness :
  ∃ s', getAllNotes 3 [] ""
          (fresh (X := inTurn) [answer 200 "page1"; answer 200 "page2"]
                 "T0" "me@example.org" noParams)
        = Returns ([note "a" "" "100"; note "a" "" "100"; note "b" "" "200"], None) s'.
Proof.
  set (s0 := fresh (X := inTurn) [answer 200 "page1"; answer 200 "page2"]
                   "T0" "me@example.org" noParams).
  assert (Hc : match getAllNotes 3 [] "" s0 with
               | Returns (r, None) _ =>
                   r = [note "a" "" "100"; note "a" "" "100"; note "b" "" "200"]
               | _ => False
               end).
  { vm_compute. reflexivity. }
  destruct (getAllNotes 3 [] "" s0) as [[r [e|]] s'|?|?|?] eqn:Hrun; try done.
  subst r.
  destruct (prepare_ok (X := inTurn) s0 (baseUrl +:+ indexEndpoint) MethodGet
                       None (Some (qparams "")) eq_refl) as (req & Hreq).
  pose proof (makeRequest_answered (X := inTurn) 1 s0 _ _ _ _ req
                (mkResponse 200 ("page1", None)) [answer 200 "page2"]
                Hreq eq_refl ltac:(done) ltac:(done) ltac:(done) ltac:(done))
    as Hm.
  destruct (getAllNotes_repeats_accumulated (X := inTurn) 2 [] "" s0 "page1" _
              (mkNoteList 1 [note "a" "" "100"] "m1") _ s' Hm eq_refl
              ltac:(done) Hrun) as (rest & Hr).
  by exists s'.
Defined.

(** On the server that pages by mark, whatever the fuel, [getAllNotes]
    has not returned: every call it made was an index call without a
    mark, and every answer was the first page. *)
Lemma getAllNotes_paged_stuck fuel notes (s : simpleNoteClient paged) :
  ∃ s' new,
    getAllNotes fuel notes "" s = OutOfFuel s'
    ∧ wire s' = wire s ++ new ∧ Cfg s' = Cfg s ∧ Forall unmarked new
    ∧ Forall (λ x, x.2 = answer 200 "page1") new.
Proof.
  revert notes s. induction fuel as [|fuel IH]; intros notes s.
  { exists s, []. split; [done|]. by rewrite app_nil_r. }
  destruct fuel as [|fuel].
  { exists s, []. split; [done|]. by rewrite app_nil_r. }
  destruct (prepare_ok (X := paged) s (baseUrl +:+ indexEndpoint) MethodGet None
                       (Some (qparams "")) eq_refl) as (req & Hreq).
  assert (Hun : unmarked (req, answer 200 "page1")).
  { apply (index_call_unmarked (X := paged) (Cfg s)); [done|]. by exists s. }
  assert (Hdo : Client_Do paged (Client s) req = (answer 200 "page1", ())).
  { destruct Hun as (Hu & _ & Hm). simpl in Hu, Hm. simpl. unfold byMark.
    rewrite Hu, Hm. by destruct (Client s). }
  pose proof (makeRequest_answered (X := paged) fuel s _ _ _ _ req
                (mkResponse 200 ("page1", None)) () Hreq Hdo
                ltac:(done) ltac:(done) ltac:(done) ltac:(done)) as Hm.
  destruct (IH (filterPage (Params s) [note "a" "" "100"] notes)
               (sent s req (answer 200 "page1") ()))
    as (s' & new & Hrun & Hw & Hc & Hall & Hans).
  exists s', ((req, answer 200 "page1") :: new).
  split.
  { apply (getAllNotes_waits (X := paged) (S fuel) notes "" s "page1" _
             (mkNoteList 1 [note "a" "" "100"] "m1") s' Hm eq_refl);
      [done|exact Hrun]. }
  split; [rewrite Hw; simpl; by rewrite <- app_assoc|].
  split; [done|]. split; by constructor.
Qed.

(** C2 fails on the code. Whatever the network, every index call of a run
    of [getAllNotes] carries the parameters of the mark the run was
    started with: [length=100], and that mark if it is not empty, never
    the mark of a page. Hence on a server that pages by mark, whose first
    page carries the mark "m1", the listing (started without a mark) has
    not returned whatever the fuel: it asks for the first page again and
    again. *)
Theorem getAllNotes_never_advances :
  (∀ (X : Externals) fuel notes mark (s : simpleNoteClient X),
     ∃ new,
       extends s new (final (getAllNotes fuel notes mark s))
       ∧ Forall (λ x, is_login X (Cfg s) x
                      ∨ is_call X (Cfg s) (baseUrl +:+ indexEndpoint) MethodGet
                                None (Some (qparams mark)) x) new)
  ∧ (∀ fuel,
       ∃ s', getAllNotes fuel [] ""
               (fresh (X := paged) () "T0" "me@example.org" noParams)
             = OutOfFuel s'
           ∧ Forall unmarked (wire s')
           ∧ Forall (λ x, x.2 = answer 200 "page1") (wire s')
           ∧ (pages "page1").1 = mkNoteList 1 [note "a" "" "100"] "m1").
Proof.
  split.
  - intros X fuel notes mark s. apply getAllNotes_wire.
  - intros fuel.
    destruct (getAllNotes_paged_stuck fuel []
                (fresh (X := paged) () "T0" "me@example.org" noParams))
      as (s' & new & Hrun & Hw & _ & Hall & Hans).
    exists s'. rewrite Hw. simpl. done.
Qed.

(** * Listing *)

Section listing.

Context {X : Externals}.

Implicit Types (s : simpleNoteClient X) (notes got acc : list Note).

(** The loop shows the notes once as many have arrived as were asked
    for. *)
Lemma collect_all got rest acc notes s :
  got ≠ [] →
  (length acc + length got = length notes)%nat →
  collect (map Fetched got ++ rest) acc notes s
  = (_ ← showNotes (acc ++ got) ; ret None) s.
Proof.
  revert acc. induction got as [|n got IH]; intros acc Hne Hlen; [done|].
  simpl in *. destruct got as [|n' got].
  - rewrite bool_decide_eq_true_2; [done|].
    unfold len. rewrite length_app. simpl in *. lia.
  - rewrite bool_decide_eq_false_2.
    + rewrite (IH (acc ++ [n])); [by rewrite <- app_assoc|done|].
      rewrite length_app. simpl in *. lia.
    + unfold len. rewrite length_app. simpl in *. lia.
Qed.

(** The loop gives up at the deadline when fewer have arrived. *)
Lemma collect_deadline got rest acc notes s :
  (length acc + length got < length notes)%nat →
  collect (map Fetched got ++ Deadline :: rest) acc notes s
  = Returns (Some ErrTimeout) s.
Proof.
  revert acc. induction got as [|n got IH]; intros acc Hlen; [done|].
  simpl in *. rewrite bool_decide_eq_false_2.
  - apply IH. rewrite length_app. simpl. lia.
  - unfold len. rewrite length_app. simpl. lia.
Qed.

(** C9. Let the index give [notes], at least one. If the [select] of
    [listNotes] sees as many fetched notes arrive as there are summaries
    before it sees the deadline, [showNotes] is called with exactly the
    notes that arrived, in the order of arrival, and no error is
    returned. If it sees the deadline after fewer have arrived, the
    timeout error is returned, nothing is shown, and the notes that had
    arrived are dropped. *)
Theorem listNotes_collects_or_times_out fuel s notes s1 :
  getAllNotes fuel [] "" s = Returns (notes, None) s1 →
  notes ≠ [] →
  (∀ got rest,
     length got = length notes →
     listNotes fuel (map Fetched got ++ rest) s
     = (_ ← showNotes got ; ret None) s1)
  ∧ (∀ got rest,
       (length got < length notes)%nat →
       listNotes fuel (map Fetched got ++ Deadline :: rest) s
       = Returns (Some ErrTimeout) s1).
Proof.
  intros Hidx Hne.
  assert (Hlen : len notes ≠ 0).
  { unfold len. destruct notes; [done|]. simpl. lia. }
  split.
  - intros got rest Hgot. unfold listNotes, mbind, M_bind, bind at 1.
    rewrite Hidx. rewrite bool_decide_eq_false_2 by done.
    apply (collect_all got rest [] notes s1); [|done].
    destruct got; [|done]. destruct notes; done.
  - intros got rest Hgot. unfold listNotes, mbind, M_bind, bind.
    rewrite Hidx. rewrite bool_decide_eq_false_2 by done.
    by apply (collect_deadline got rest [] notes s1).
Qed.

End listing.

Lemma listNotes_collects_or_times_out_witness :
  ∃ s1, listNotes 2 [Deadline]
          (fresh (X := inTurn) [answer 200 "page2"] "T0" "me@example.org"
                 noParams)
        = Returns (Some ErrTimeout) s1
      ∧ stdout s1 = [].
Proof.
  set (s0 := fresh (X := inTurn) [answer 200 "page2"] "T0" "me@example.org"
                   noParams).
  assert (Hc : match getAllNotes 2 [] "" s0 with
               | Returns (r, None) s1 => r = [note "b" "" "200"] ∧ stdout s1 = []
               | _ => False
               end).
  { vm_compute. split; reflexivity. }
  destruct (getAllNotes 2 [] "" s0) as [[r [e|]] s1|?|?|?] eqn:Hidx; try done.
  destruct Hc as [-> Hout]. exists s1. split; [|done].
  apply (proj2 (listNotes_collects_or_times_out (X := inTurn) 2 s0 _ s1 Hidx
                  ltac:(done)) [] []).
  simpl. lia.
Defined.

(** * More on the dispatcher *)

Section retries.

Context {X : Externals}.

Implicit Types (s : simpleNoteClient X) (req : Request) (resp : Response).

(** One round of [makeRequest] that is answered 500 or 412: the same call
    again, by the client as the answer left it. *)
Lemma makeRequest_again fuel s addr method body params req resp w :
  prepare s addr method body params = (Some req, None) →
  Client_Do X (Client s) req = ((Some resp, None), w) →
  StatusCode resp = StatusInternalServerError
  ∨ StatusCode resp = StatusPreconditionFailed →
  makeRequest (S fuel) addr method body params s
  = makeRequest fuel addr method body params (sent s req (Some resp, None) w).
Proof.
  intros Hreq Hdo Hcode. simpl. rewrite Hreq.
  unfold mbind, M_bind, bind, Do. rewrite Hdo.
  destruct Hcode as [Hc|Hc]; rewrite Hc; reflexivity.
Qed.


(** On a network that answers every call with 500 or 412, [makeRequest]
    has not come back whatever the fuel: it has made one call for every
    unit of fuel and the token is the one it started with. *)
Theorem makeRequest_retries_without_bound addr method body params :
  (∀ w req, ∃ resp w',
      Client_Do X w req = ((Some resp, None), w')
      ∧ (StatusCode resp = StatusInternalServerError
         ∨ StatusCode resp = StatusPreconditionFailed)) →
  (url_Parse X addr).2 = None →
  ∀ fuel s, ∃ s',
    makeRequest fuel addr method body params s = OutOfFuel s'
    ∧ length (wire s') = (length (wire s) + fuel)%nat
    ∧ Token s' = Token s.
Proof.
  intros Hdown Hurl fuel. induction fuel as [|fuel IH]; intros s.
  { exists s. split; [done|]. split; [lia|done]. }
  destruct (prepare_ok s addr method body params Hurl) as (req & Hreq).
  destruct (Hdown (Client s) req) as (resp & w & Hdo & Hcode).
  rewrite (makeRequest_again _ _ _ _ _ _ _ _ _ Hreq Hdo Hcode).
  destruct (IH (sent s req (Some resp, None) w)) as (s' & Hrun & Hlen & Htok).
  exists s'. split; [done|]. split; [|done].
  rewrite Hlen. simpl. rewrite length_app. simpl. lia.
Qed.

(** When the transport hands back no response, as it does when it fails,
    [makeRequest] panics on the deferred [resp.Body.Close()] before it
    looks at the error; so does every operation that starts with a call
    of the dispatcher. *)
Theorem makeRequest_panics_without_response
    fuel s addr method body params req err w :
  prepare s addr method body params = (Some req, None) →
  Client_Do X (Client s) req = ((None, err), w) →
  makeRequest (S fuel) addr method body params s
  = Panics (sent s req (None, err) w).
Proof.
  intros Hreq Hdo. simpl. rewrite Hreq.
  unfold mbind, M_bind, bind, Do. by rewrite Hdo.
Qed.

(** [Authorize] returns no error exactly when the login was answered 200
    and the body could be read, and then the body is the token; in every
    other case the token is the one the client had. *)
Theorem Authorize_sets_token_on_success_only s :
  (∃ authreq resp tok w,
      http_NewRequest X MethodPost authorizeUrl (Some (encodedBody X (Cfg s)))
      = (Some authreq, None)
      ∧ Client_Do X (Client s) authreq = ((Some resp, None), w)
      ∧ StatusCode resp = StatusOK ∧ ReadAll resp = (tok, None)
      ∧ Authorize s
        = Returns None (with_Token tok (sent s authreq (Some resp, None) w)))
  ∨ (Token (final (Authorize s)) = Token s
     ∧ ∀ s', Authorize s ≠ Returns None s').
Proof.
  unfold Authorize.
  destruct (http_NewRequest X MethodPost authorizeUrl _)
    as [[authreq|] [e|]] eqn:Hreq; simpl; try (by right).
  unfold mbind, M_bind, bind, Do.
  destruct (Client_Do X (Client s) authreq) as [[resp err] w] eqn:Hdo.
  destruct err as [e|]; simpl; [by right|].
  destruct resp as [resp|]; simpl; [|by right].
  case_bool_decide as Hcode; simpl; [by right|].
  destruct (ReadAll resp) as [tok [e|]] eqn:Hread; simpl; [by right|].
  left. exists authreq, resp, tok, w.
  repeat split; done.
Qed.

(** Folding the insertions of a map into the empty map gives the map. *)
Lemma fold_insert_empty (m : gmap string string) :
  map_fold (λ k v h, <[k := v]> h) ∅ m = m.
Proof.
  apply map_eq. intros k. rewrite fold_insert_lookup.
  destruct (m !! k); [done|]. by rewrite lookup_empty.
Qed.

(** Every request the dispatcher prepares carries the three default
    headers and no other, whatever the caller's parameters; its query
    carries the client's token under [auth] and the account's email under
    [email] unless the caller names these keys, and nothing under a key
    that neither the caller nor the address names. *)
Theorem prepare_defaults s addr method body params req vals :
  url_Parse X addr = (vals, None) →
  prepare s addr method body params = (Some req, None) →
  Header req = simpleNoteHeaders X
  ∧ (∀ k, match params with Some ps => ps !! k | None => None end = None →
       Query req !! k =
         if decide (k = "auth")
         then Some (default [] (vals !! k) ++ [Token s])
         else if decide (k = "email")
              then Some (default [] (vals !! k) ++ [Email (Cfg s)])
              else vals !! k).
Proof.
  intros Hurl Hprep. split.
  - unfold prepare, http_NewRequest in Hprep. rewrite Hurl in Hprep.
    injection Hprep as <-. simpl. apply fold_insert_empty.
  - intros k Hk. rewrite (prepare_Query _ _ _ _ _ _ _ Hurl Hprep).
    rewrite parseAddr_lookup. simpl. by rewrite Hk.
Qed.

End retries.


Lemma makeRequest_retries_without_bound_witness :
  ∃ s', makeRequest 7 "https://simple-note.appspot.com/api2/index" MethodGet
                    None None
                    (fresh (X := down) () "T0" "me@example.org" noParams)
        = OutOfFuel s'
      ∧ length (wire s') = 7%nat.
Proof.
  destruct (makeRequest_retries_without_bound (X := down)
              "https://simple-note.appspot.com/api2/index" MethodGet None None)
    with (fuel := 7%nat)
         (s := fresh (X := down) () "T0" "me@example.org" noParams)
    as (s' & Hrun & Hlen & _).
  - intros w req. exists (mkResponse 500 ("", None)), w. split; [done|by left].
  - done.
  - exists s'. split; [exact Hrun|exact Hlen].
Defined.

Lemma makeRequest_panics_without_response_witness :
  ∃ s', makeRequest 1 "https://simple-note.appspot.com/api2/index" MethodGet
                    None None
                    (fresh (X := offline) () "T0" "me@example.org" noParams)
        = Panics s'.
Proof.
  destruct (prepare_ok (X := offline)
              (fresh (X := offline) () "T0" "me@example.org" noParams)
              "https://simple-note.appspot.com/api2/index" MethodGet None None
              eq_refl) as (req & Hreq).
  eexists.
  by apply (makeRequest_panics_without_response (X := offline) 0 _ _ _ _ _ req
              (Some (ErrLibrary "no network")) () Hreq).
Defined.

Lemma prepare_defaults_witness :
  ∃ req, prepare (fresh (X := offline) () "T0" "me@example.org" noParams)
                 "https://simple-note.appspot.com/api2/index" MethodGet None
                 (Some {["length" := "100"]}) = (Some req, None)
         ∧ Header req = simpleNoteHeaders offline.
Proof.
  eexists. split; [reflexivity|].
  eapply (prepare_defaults (X := offline)); reflexivity.
Defined.

(** * More on the index and on single notes *)

Section notes.

Context {X : Externals}.

Implicit Types (s : simpleNoteClient X) (notes : list Note).

(** When [getAllNotes] returns an error it returns no notes with it:
    whatever the pages before the failure held is dropped. *)
Theorem getAllNotes_error_discards fuel notes mark s r e s' :
  getAllNotes fuel notes mark s = Returns (r, Some e) s' → r = [].
Proof.
  revert notes s. induction fuel as [|fuel IH]; intros notes s; [done|].
  simpl. unfold mbind, M_bind, bind.
  destruct (makeRequest fuel _ _ _ _ s) as [[[b err] code] s1|?|?|?]; try done.
  destruct err; [by intros [= <- _ _]|].
  case_bool_decide; [by intros [= <- _ _]|].
  destruct (json_Unmarshal_NoteList X b) as [l [e'|]]; [by intros [= <- _ _]|].
  case_bool_decide; [|done].
  destruct (getAllNotes fuel _ mark s1) as [[newNotes [e'|]] s2|?|?|?]; try done.
  by intros [= <- _ _].
Qed.

(** A page without a continuation mark ends the paging: what was
    accumulated and then what the page loop keeps of the page, with no
    further call. *)
Theorem getAllNotes_last_page fuel notes mark s b s1 l :
  makeRequest fuel (baseUrl +:+ indexEndpoint) MethodGet None
              (Some (qparams mark)) s = Returns (b, None, StatusOK) s1 →
  json_Unmarshal_NoteList X b = (l, None) →
  Mark l = "" →
  getAllNotes (S fuel) notes mark s
  = Returns (notes ++ filterPage (Params s) (Data l) [], None) s1.
Proof.
  intros Hreq Hl Hmark. simpl. unfold mbind, M_bind, bind.
  rewrite Hreq. simpl. rewrite Hl.
  rewrite bool_decide_eq_false_2 by (intros H; by apply H).
  by rewrite filterPage_app.
Qed.

(** [fetchNote] returns only what it decoded from the body of a call to
    the address of the note that was answered 200; that call is the last
    on the wire. *)
Theorem fetchNote_returns_decoded fuel n s note s' :
  fetchNote fuel n s = Returns note s' →
  ∃ new req resp b,
    wire s' = wire s ++ new ++ [(req, (Some resp, None))]
    ∧ is_call X (Cfg s) (noteUrl (Key n)) MethodGet None None
              (req, (Some resp, None))
    ∧ StatusCode resp = StatusOK ∧ ReadAll resp = (b, None)
    ∧ json_Unmarshal_Note X b = (note, None).
Proof.
  unfold fetchNote, mbind, M_bind, bind.
  destruct (makeRequest_wire fuel (noteUrl (Key n)) MethodGet None None s)
    as (new & Hext & _ & Hret).
  destruct (makeRequest fuel _ _ _ _ s) as [[[b e] code] s1|?|?|?]; try done.
  simpl in Hext. destruct e as [e|]; [done|].
  case_bool_decide as Hcode; [done|].
  destruct (json_Unmarshal_Note X b) as [i [e|]] eqn:Hdec; [done|].
  intros [= <- <-].
  destruct (Hret b None code s1 eq_refl) as (new' & req & resp & -> & Hc & Hs & Hr).
  { by rewrite Hcode. }
  exists new', req, resp, b. destruct Hext as (-> & _).
  by rewrite Hs, Hcode.
Qed.

(** With an empty key on the command line, a [deleteNote] that returns
    has fetched a note and then refused to update it: the error is the
    missing key, and nothing but the fetch (and logins) went over the
    wire: no POST of the note and no DELETE, whatever the flags. *)
Theorem deleteNote_without_key fuel s err s' :
  CommandLineParams.Key (Params s) = "" →
  deleteNote fuel s = Returns err s' →
  err = Some ErrMissingKey
  ∧ ∃ new, wire s' = wire s ++ new
           ∧ Forall (λ x, is_login X (Cfg s) x
                          ∨ is_call X (Cfg s) (noteUrl "") MethodGet
                                    None None x) new.
Proof.
  intros Hkey. unfold deleteNote, mbind, M_bind, bind. rewrite Hkey.
  destruct (fetchNote fuel _ s) as [note s1|?|?|?] eqn:Hfetch; try done.
  destruct (fetchNote_wire _ _ _ _ _ Hfetch) as (new & Hext & Hall).
  unfold updateNote.
  assert (Hk1 : CommandLineParams.Key (Params s1) = "").
  { destruct Hext as (_ & _ & ->). done. }
  rewrite (bool_decide_eq_true_2 _ Hk1).
  intros [= <- <-]. split; [done|]. exists new. split; [apply Hext|done].
Qed.


End notes.

Lemma getAllNotes_last_page_witness :
  ∃ s1, getAllNotes 2 [] ""
          (fresh (X := inTurn) [answer 200 "page2"] "T0" "me@example.org"
                 noParams)
        = Returns ([note "b" "" "200"], None) s1.
Proof.
  set (s0 := fresh (X := inTurn) [answer 200 "page2"] "T0" "me@example.org"
                   noParams).
  destruct (prepare_ok (X := inTurn) s0 (baseUrl +:+ indexEndpoint) MethodGet
                       None (Some (qparams "")) eq_refl) as (req & Hreq).
  pose proof (makeRequest_answered (X := inTurn) 0 s0 _ _ _ _ req
                (mkResponse 200 ("page2", None)) []
                Hreq eq_refl ltac:(done) ltac:(done) ltac:(done) ltac:(done))
    as Hm.
  eexists.
  exact (getAllNotes_last_page (X := inTurn) 1 [] "" s0 "page2" _
           (mkNoteList 1 [note "b" "" "200"] "") Hm eq_refl eq_refl).
Defined.

Lemma getAllNotes_error_discards_witness :
  ∃ s', getAllNotes 3 [] ""
          (fresh (X := inTurn) [answer 200 "page1"; answer 404 ""]
                 "T0" "me@example.org" noParams)
        = Returns ([], Some (ErrRequestFailed 404)) s'.
Proof.
  set (s0 := fresh (X := inTurn) [answer 200 "page1"; answer 404 ""]
                   "T0" "me@example.org" noParams).
  assert (Hc : match getAllNotes 3 [] "" s0 with
               | Returns (_, Some e) _ => e = ErrRequestFailed 404
               | _ => False
               end).
  { vm_compute. reflexivity. }
  destruct (getAllNotes 3 [] "" s0) as [[r [e|]] s'|?|?|?] eqn:Hrun; try done.
  subst e. exists s'.
  by rewrite (getAllNotes_error_discards (X := inTurn) _ _ _ _ _ _ _ Hrun).
Defined.

Lemma fetchNote_returns_decoded_witness :
  ∃ s', fetchNote 1 (Note_of_key "0123456789abcdef0123456789abcdef")
          (fresh (X := scripted) [answer 200 "0123456789abcdef0123456789abcdef"]
                 "T0" "me@example.org" noParams)
        = Returns (note "0123456789abcdef0123456789abcdef" "text" "100") s'
      ∧ length (wire s') = 1%nat.
Proof.
  set (s0 := fresh (X := scripted) [answer 200 "0123456789abcdef0123456789abcdef"]
                   "T0" "me@example.org" noParams).
  assert (Hc : match fetchNote 1 (Note_of_key "0123456789abcdef0123456789abcdef") s0 with
               | Returns n s' =>
                   n = note "0123456789abcdef0123456789abcdef" "text" "100"
                   ∧ length (wire s') = 1%nat
               | _ => False
               end).
  { vm_compute. split; reflexivity. }
  destruct (fetchNote 1 _ s0) as [n s'|?|?|?] eqn:Hrun; try done.
  destruct Hc as (-> & Hlen). exists s'. split; [done|].
  destruct (fetchNote_returns_decoded (X := scripted) _ _ _ _ _ Hrun)
    as (new & req & resp & b & Hw & _).
  exact Hlen.
Defined.

Lemma deleteNote_without_key_witness :
  ∃ s', deleteNote 1 keyless = Returns (Some ErrMissingKey) s'.
Proof.
  assert (Hc : match deleteNote 1 keyless with
               | Returns _ _ => True
               | _ => False
               end).
  { vm_compute. exact I. }
  destruct (deleteNote 1 keyless) as [err s'|?|?|?] eqn:Hrun; try done.
  destruct (deleteNote_without_key (X := scripted) 1 keyless err s' eq_refl Hrun)
    as (-> & _).
  by exists s'.
Defined.


(** * More on the presenter *)

Lemma filter_none {A} (P : A → Prop) `{∀ x, Decision (P x)} (l : list A) :
  Forall (λ x, ¬ P x) l → filter P l = [].
Proof.
  induction 1 as [|x l Hx _ IH]; [done|].
  rewrite filter_cons. by rewrite decide_False.
Qed.

Lemma NoDup_map_inj {A B} (f : A → B) (l : list A) x y :
  NoDup (map f l) → x ∈ l → y ∈ l → f x = f y → x = y.
Proof.
  induction l as [|z l IH]; simpl; intros Hnd Hx Hy Hf.
  { by apply elem_of_nil in Hx. }
  apply NoDup_cons in Hnd as [Hz Hnd].
  apply elem_of_cons in Hx as [->|Hx]; apply elem_of_cons in Hy as [->|Hy];
    try done.
  - exfalso. apply Hz. rewrite Hf. apply list_elem_of_In, in_map.
    by apply list_elem_of_In.
  - exfalso. apply Hz. rewrite <- Hf. apply list_elem_of_In, in_map.
    by apply list_elem_of_In.
  - by apply IH.
Qed.

(** Joining the lines of a text with line breaks gives the text back. *)
Lemma split_lines_nonempty str : split_lines str ≠ [].
Proof.
  induction str as [|c str IH]; simpl; [done|].
  case_bool_decide; [done|]. by destruct (split_lines str).
Qed.



Lemma split_lines_unbroken str : Forall unbroken (split_lines str).
Proof.
  induction str as [|c str IH]; simpl; [by repeat constructor|].
  case_bool_decide as Hc; [by constructor|].
  destruct (split_lines str) as [|l ls]; [by repeat constructor|].
  apply Forall_cons in IH as [Hl Hls]. by constructor.
Qed.

Lemma substring_unbroken n str : unbroken str → unbroken (substring 0 n str).
Proof.
  revert n. induction str as [|c str IH]; intros [|n]; simpl; try done.
  intros [Hc Hs]. split; [done|]. by apply IH.
Qed.

Lemma substring_length_le n str : (String.length (substring 0 n str) ≤ n)%nat.
Proof.
  revert n. induction str as [|c str IH]; intros [|n]; simpl; try lia.
  specialize (IH n). lia.
Qed.

Lemma append_unbroken a b : unbroken a → unbroken b → unbroken (a +:+ b).
Proof. induction a as [|c a IH]; simpl; [done|]. intros [??] ?. auto. Qed.

Lemma append_length a b :
  String.length (a +:+ b) = (String.length a + String.length b)%nat.
Proof. induction a as [|c a IH]; simpl; [done|]. by rewrite IH. Qed.

(** The lines from the first that is not empty are the lines without
    some empty lines at the front. *)
Lemma fromFirstLine_spec lines rest :
  fromFirstLine lines = Some rest →
  ∃ k line0 more,
    lines = replicate k "" ++ rest ∧ rest = line0 :: more ∧ line0 ≠ "".
Proof.
  induction lines as [|l lines IH]; simpl; [done|].
  case_bool_decide as Hl.
  - intros [= <-]. by exists 0%nat, l, lines.
  - intros Hr. destruct (IH Hr) as (k & line0 & more & -> & -> & Hne).
    exists (S k), line0, more. simpl. by rewrite Hl.
Qed.


Section records.

Context {X : Externals}.

Implicit Types (s : simpleNoteClient X) (notes : list Note) (n : Note).

(** When no note has content, [showNotes] prints the listing of no notes
    and returns, whatever the flag [n] says: the limit is not looked
    at. *)
Theorem showNotes_nothing_to_show s notes :
  sort_Sort X (Less X) notes ≡ₚ notes →
  Forall (λ n, Content n = "") notes →
  showNotes notes s = Returns () (printing (ListingEmpty (Email (Cfg s))) s).
Proof.
  intros Hperm Hall. unfold showNotes. rewrite parsed_loop. simpl.
  rewrite filter_none; [done|].
  rewrite Hperm. eapply Forall_impl; [exact Hall|]. intros n Hn Hc. done.
Qed.

(** When the flag [n] is not a number, [showNotes] shows every note with
    content. *)
Theorem showNotes_unreadable_limit s notes e :
  sort_Sort X (Less X) notes ≡ₚ notes →
  len notes ≤ maxInt →
  (strconv_Atoi (index (CommandLineParams.Flags (Params s)) "n")).2 = Some e →
  ∃ p, showNotes notes s = Returns () (printing p s)
     ∧ records p = map (λ n, parseNote X n true)
                       (filter (λ n, Content n ≠ "") (sort_Sort X (Less X) notes)).
Proof.
  intros Hperm Hlen Hatoi. unfold showNotes. rewrite parsed_loop. simpl.
  pose proof (filter_length_le _ _ Hperm) as Hle.
  set (kept := filter (λ n, Content n ≠ "") (sort_Sort X (Less X) notes)) in *.
  assert (Hmap : len (map (λ n, parseNote X n true) kept) = len kept).
  { unfold len. by rewrite length_map. }
  rewrite Hmap. case_bool_decide as Hz.
  { eexists. split; [reflexivity|]. simpl.
    destruct kept; [done|]. unfold len in Hz. simpl in Hz. lia. }
  assert (Hflag : index (CommandLineParams.Flags (Params s)) "n" ≠ "-1").
  { intros E. rewrite E in Hatoi. by vm_compute in Hatoi. }
  rewrite (bool_decide_eq_true_2 _ Hflag).
  destruct (strconv_Atoi _) as [n0 err]. simpl in Hatoi. subst err.
  rewrite bool_decide_eq_false_2 by lia.
  unfold int_sub. rewrite Z.sub_diag.
  rewrite wrap_small by (unfold minInt, maxInt; lia).
  unfold slice_from. rewrite bool_decide_eq_true_2 by (unfold len; lia).
  eexists. split; [reflexivity|]. done.
Qed.

(** Two slices with the same notes, whose modification timestamps all
    differ, are shown alike: with timestamps that differ the order in
    which the notes arrived leaves no trace. *)
Theorem showNotes_forgets_arrival_order s notes1 notes2 :
  sorts (Less X) notes1 (sort_Sort X (Less X) notes1) →
  sorts (Less X) notes2 (sort_Sort X (Less X) notes2) →
  notes1 ≡ₚ notes2 →
  NoDup (map (λ n, GetSimpleNoteTimestamp X (ModifyDate n)) notes1) →
  showNotes notes1 s = showNotes notes2 s.
Proof.
  intros [Hp1 Hs1] [Hp2 Hs2] Hperm Hnd.
  assert (Heq : sort_Sort X (Less X) notes1 = sort_Sort X (Less X) notes2).
  { eapply StronglySorted_unique_strong; [|exact Hs1|exact Hs2|].
    - intros x1 x2 Hx1 Hx2 H12 H21.
      rewrite Hp1 in Hx1. rewrite Hp2, <- Hperm in Hx2.
      apply (NoDup_map_inj _ _ _ _ Hnd Hx1 Hx2).
      unfold Less in H12, H21.
      apply bool_decide_eq_false in H12, H21. lia.
    - by rewrite Hp1, Hp2. }
  unfold showNotes. by rewrite Heq.
Qed.

(** The text shown for a note in a listing has no line break and is at
    most [noteHeaderLength] bytes and three dots long. *)
Theorem parseNote_header_short n :
  ∃ content,
    parseNote X n true
    = Sprintf_noteListRecord X (Key n) (ModifyDate n) (Tags n) content
    ∧ unbroken content
    ∧ (String.length content ≤ noteHeaderLength + 3)%nat.
Proof.
  unfold parseNote.
  pose proof (split_lines_unbroken (Content n)) as Hall.
  pose proof (split_lines_nonempty (Content n)) as Hne.
  assert (Hl : ∃ line0 more,
             default (split_lines (Content n))
                     (fromFirstLine (split_lines (Content n))) = line0 :: more
             ∧ unbroken line0).
  { destruct (fromFirstLine (split_lines (Content n))) as [rest|] eqn:Hf; simpl.
    - destruct (fromFirstLine_spec _ _ Hf) as (k & line0 & more & Hl & -> & _).
      exists line0, more. split; [done|].
      rewrite Hl in Hall. apply Forall_app in Hall as [_ Hall].
      by apply Forall_cons in Hall as [? _].
    - destruct (split_lines (Content n)) as [|line0 more]; [done|].
      exists line0, more. split; [done|]. by apply Forall_cons in Hall as [? _]. }
  destruct Hl as (line0 & more & -> & Hun).
  case_bool_decide as Hlong.
  - eexists. split; [reflexivity|]. split.
    + apply append_unbroken; [by apply substring_unbroken|]. by vm_compute.
    + rewrite append_length.
      pose proof (substring_length_le noteHeaderLength line0).
      change (String.length "...") with 3%nat. lia.
  - exists line0. split; [done|]. split; [done|]. lia.
Qed.


End records.

Lemma showNotes_nothing_to_show_witness :
  showNotes [note "k1" "" "100"] (lister "-7")
  = Returns () (printing (ListingEmpty "me@example.org") (lister "-7")).
Proof.
  apply (showNotes_nothing_to_show (X := offline) (lister "-7")
           [note "k1" "" "100"]).
  - apply (bool_decide_unpack _). by vm_compute.
  - by repeat constructor.
Defined.

Lemma showNotes_unreadable_limit_witness :
  ∃ p, showNotes [early; late] (lister "all")
       = Returns () (printing p (lister "all"))
     ∧ records p = ["k1 100 one"; "k2 200 two"].
Proof.
  destruct (showNotes_unreadable_limit (X := offline) (lister "all")
              [early; late] (ErrLibrary "strconv.Atoi: invalid syntax"))
    as (p & Hrun & Hrec).
  - apply (bool_decide_unpack _). by vm_compute.
  - by vm_compute.
  - reflexivity.
  - exists p. split; [exact Hrun|]. rewrite Hrec. reflexivity.
Defined.

Lemma showNotes_forgets_arrival_order_witness :
  showNotes [early; late] (lister "-1") = showNotes [late; early] (lister "-1").
Proof.
  apply (showNotes_forgets_arrival_order (X := offline)).
  - apply sorts_checked; by vm_compute.
  - apply sorts_checked; by vm_compute.
  - apply (bool_decide_unpack _). by vm_compute.
  - apply (bool_decide_unpack _). by vm_compute.
Defined.

(** * More on listing *)

Section empty_index.

Context {X : Externals}.

Implicit Types (s : simpleNoteClient X).

(** When the index gives no notes, [listNotes] prints the listing of no
    notes and returns no error without waiting for anything: the schedule
    of arrivals is not looked at. *)
Theorem listNotes_empty_index fuel schedule s s1 :
  getAllNotes fuel [] "" s = Returns ([], None) s1 →
  sort_Sort X (Less X) [] ≡ₚ [] →
  listNotes fuel schedule s
  = Returns None (printing (ListingEmpty (Email (Cfg s1))) s1).
Proof.
  intros Hidx Hsort. unfold listNotes, mbind, M_bind, bind at 1.
  rewrite Hidx. rewrite bool_decide_eq_true_2 by done.
  unfold bind, showNotes. rewrite parsed_loop. simpl.
  rewrite filter_none; [done|]. by rewrite Hsort.
Qed.

(** When the index fails, [listNotes] returns its error and the schedule
    is not looked at; all it has called then is the login and the index,
    so no note was fetched. *)
Theorem listNotes_index_error fuel schedule s r e s1 :
  getAllNotes fuel [] "" s = Returns (r, Some e) s1 →
  listNotes fuel schedule s = Returns (Some e) s1
  ∧ ∃ new, wire s1 = wire s ++ new
         ∧ Forall (λ x, is_login X (Cfg s) x
                        ∨ is_call X (Cfg s) (baseUrl +:+ indexEndpoint)
                            MethodGet None (Some (qparams "")) x) new.
Proof.
  intros Hidx. split.
  - unfold listNotes, mbind, M_bind, bind. by rewrite Hidx.
  - destruct (getAllNotes_wire fuel [] "" s) as (new & Hext & Hall).
    rewrite Hidx in Hext. simpl in Hext. exists new. split; [apply Hext|done].
Qed.

End empty_index.

Lemma listNotes_empty_index_witness :
  ∃ s1, listNotes 2 [Deadline]
          (fresh (X := inTurn) [answer 200 "page2"] "T0" "me@example.org"
                 (CommandLineParams.mk "" ["work"] "list" "" ∅ false))
        = Returns None s1
      ∧ stdout s1 = [ListingEmpty "me@example.org"].
Proof.
  set (s0 := fresh (X := inTurn) [answer 200 "page2"] "T0" "me@example.org"
                   (CommandLineParams.mk "" ["work"] "list" "" ∅ false)).
  assert (Hc : match getAllNotes 2 [] "" s0 with
               | Returns (r, None) s1 =>
                   r = [] ∧ stdout s1 = [] ∧ Email (Cfg s1) = "me@example.org"
               | _ => False
               end).
  { vm_compute. repeat split; reflexivity. }
  destruct (getAllNotes 2 [] "" s0) as [[r [e|]] s1|?|?|?] eqn:Hidx; try done.
  destruct Hc as (-> & Hout & Hmail). eexists. split.
  - apply (listNotes_empty_index (X := inTurn) 2 [Deadline] s0 s1 Hidx).
    reflexivity.
  - simpl. by rewrite Hout, Hmail.
Defined.

Lemma listNotes_index_error_witness :
  ∃ s1, listNotes 2 [Fetched early]
          (fresh (X := inTurn) [answer 404 ""] "T0" "me@example.org" noParams)
        = Returns (Some (ErrRequestFailed 404)) s1.
Proof.
  set (s0 := fresh (X := inTurn) [answer 404 ""] "T0" "me@example.org" noParams).
  assert (Hc : match getAllNotes 2 [] "" s0 with
               | Returns (_, Some e) _ => e = ErrRequestFailed 404
               | _ => False
               end).
  { vm_compute. reflexivity. }
  destruct (getAllNotes 2 [] "" s0) as [[r [e|]] s1|?|?|?] eqn:Hidx; try done.
  subst e. exists s1.
  exact (proj1 (listNotes_index_error (X := inTurn) 2 [Fetched early] s0 r _ s1
                  Hidx)).
Defined.

(** * The command line *)

Section command_line.

Variable TrimSpace : string → string.

Implicit Types (p : CommandLineParams.t) (args rest : list string).

(** [getTags] takes the arguments that start with "@" off the front,
    as far as they go, and appends them without the "@" to the tags; it
    leaves the other parameters alone, and what it returns is what comes
    after these arguments. *)
Theorem getTags_splits args p rest p' :
  getTags args p = (rest, p') →
  ∃ tags,
    args = map (String "@"%char) tags ++ rest
    ∧ CommandLineParams.Tags p' = CommandLineParams.Tags p ++ tags
    ∧ match rest with
      | [] => True
      | arg :: _ => HasPrefix_tag arg = false
      end
    ∧ CommandLineParams.Content p' = CommandLineParams.Content p
    ∧ CommandLineParams.Action p' = CommandLineParams.Action p
    ∧ CommandLineParams.Key p' = CommandLineParams.Key p
    ∧ CommandLineParams.Flags p' = CommandLineParams.Flags p.
Proof.
  revert p. induction args as [|arg args IH]; intros p; simpl.
  - intros [= <- <-]. exists []. simpl. rewrite app_nil_r. by repeat split.
  - destruct (HasPrefix_tag arg) eqn:Hpre.
    + intros Hrun. destruct (IH _ Hrun) as (tags & -> & Ht & Hr & Hc & Ha & Hk & Hf).
      exists (TrimPrefix_tag arg :: tags). simpl in *.
      rewrite Ht, <- app_assoc. repeat split; try done.
      f_equal. destruct arg as [|c arg]; [done|]. simpl in *.
      case_bool_decide; [by subst|done].
    + intros [= <- <-]. exists []. simpl. rewrite app_nil_r.
      by repeat split.
Qed.

(** [getAction] returns an error only for one of the actions that need
    a key: when nothing follows the action, or when what follows is not
    32 bytes long. *)
Theorem getAction_refuses args p rest e p' :
  getAction TrimSpace args p = ((rest, Some e), p') →
  ∃ action, action ∈ ["delete"; "edit"; "get"]
    ∧ CommandLineParams.Action p' = action
    ∧ CommandLineParams.Key p' = CommandLineParams.Key p
    ∧ ((args = [action] ∧ e = ErrMissingNoteKey)
       ∨ (∃ key more, args = action :: key :: more
                      ∧ String.length key ≠ 32%nat
                      ∧ e = ErrInvalidIdentifier)).
Proof.
  unfold getAction. destruct args as [|action args]; [done|].
  destruct (CustomActions !! action) as [[|]|] eqn:Hact; try done.
  assert (Hin : action ∈ ["delete"; "edit"; "get"]).
  { unfold CustomActions in Hact.
    repeat (apply lookup_insert_Some in Hact as [[<- Hact]|[_ Hact]];
            [first [done | set_solver]|]).
    by rewrite lookup_empty in Hact. }
  destruct args as [|key more].
  - intros [= <- <- <-]. exists action. repeat split; try done. by left.
  - case_bool_decide as Hlen; [|done].
    intros [= <- <- <-]. exists action. repeat split; try done.
    right. exists key, more. repeat split; try done.
    unfold SimpleNoteKeyLength in Hlen. lia.
Qed.

(** When [getAction] returns no error: either the first argument is no
    action and nothing changes; or it is "version" or "list" and it alone
    is taken off; or it is "delete", "edit" or "get", the argument after
    it is 32 bytes long, both are taken off, and the key is that argument
    after [strings.TrimSpace]. *)
Theorem getAction_accepts args p rest p' :
  getAction TrimSpace args p = ((rest, None), p') →
  (rest = args ∧ p' = p
   ∧ match args with [] => True | a :: _ => CustomActions !! a = None end)
  ∨ (∃ action, args = action :: rest ∧ action ∈ ["version"; "list"]
               ∧ p' = set_Action action p)
  ∨ (∃ action key, args = action :: key :: rest
                   ∧ action ∈ ["delete"; "edit"; "get"]
                   ∧ String.length key = 32%nat
                   ∧ p' = set_Key (TrimSpace key) (set_Action action p)).
Proof.
  unfold getAction. destruct args as [|action args].
  { intros [= <- <-]. by left. }
  destruct (CustomActions !! action) as [requiresKey|] eqn:Hact.
  2: { intros [= <- <-]. by left. }
  unfold CustomActions in Hact.
  destruct requiresKey.
  - destruct args as [|key more]; [done|].
    case_bool_decide as Hlen; [done|]. intros [= <- <-]. right. right.
    exists action, key. split; [done|]. split.
    + repeat (apply lookup_insert_Some in Hact as [[<- Hact]|[_ Hact]];
              [first [done | set_solver]|]).
      by rewrite lookup_empty in Hact.
    + split; [|done]. unfold SimpleNoteKeyLength in Hlen. lia.
  - intros [= <- <-]. right. left. exists action. split; [done|]. split; [|done].
    repeat (apply lookup_insert_Some in Hact as [[<- Hact]|[_ Hact]];
            [first [done | set_solver]|]).
    by rewrite lookup_empty in Hact.
Qed.

(** A key of 32 bytes that is white space all through passes the check
    of its length and leaves the parameters with an empty key: the case
    the guard of [updateNote] is there for. *)
Theorem getAction_blank_key action key rest p :
  action ∈ ["delete"; "edit"; "get"] →
  String.length key = 32%nat →
  TrimSpace key = "" →
  getAction TrimSpace (action :: key :: rest) p
  = ((rest, None), set_Key "" (set_Action action p)).
Proof.
  intros Hin Hlen Htrim. unfold getAction.
  assert (CustomActions !! action = Some true) as ->.
  { repeat (apply elem_of_cons in Hin as [->|Hin]; [reflexivity|]).
    by apply elem_of_nil in Hin. }
  rewrite bool_decide_eq_false_2, Htrim; [done|].
  unfold SimpleNoteKeyLength. lia.
Qed.

End command_line.

Lemma getTags_splits_witness :
  getTags ["@work"; "@x"; "buy"; "@milk"] noParams
  = (["buy"; "@milk"],
     CommandLineParams.mk "" ["work"; "x"] "" "" ∅ false)
  ∧ ["@work"; "@x"; "buy"; "@milk"]
    = map (String "@"%char) ["work"; "x"] ++ ["buy"; "@milk"].
Proof.
  split; [reflexivity|].
  destruct (getTags_splits ["@work"; "@x"; "buy"; "@milk"] noParams
              ["buy"; "@milk"]
              (CommandLineParams.mk "" ["work"; "x"] "" "" ∅ false) eq_refl)
    as (tags & Hargs & _).
  reflexivity.
Defined.

Lemma getAction_refuses_witness :
  getAction trimSpaces ["delete"; "tooshort"] noParams
  = (([], Some ErrInvalidIdentifier), set_Action "delete" noParams)
  ∧ CommandLineParams.Action (set_Action "delete" noParams) = "delete".
Proof.
  split; [reflexivity|].
  destruct (getAction_refuses trimSpaces ["delete"; "tooshort"] noParams []
              ErrInvalidIdentifier (set_Action "delete" noParams) eq_refl)
    as (action & _ & Ha & _).
  reflexivity.
Defined.

Lemma getAction_accepts_witness :
  getAction trimSpaces ["get"; "0123456789abcdef0123456789abcdef"; "x"] noParams
  = ((["x"], None),
     set_Key "0123456789abcdef0123456789abcdef" (set_Action "get" noParams)).
Proof.
  destruct (getAction_accepts trimSpaces
              ["get"; "0123456789abcdef0123456789abcdef"; "x"] noParams ["x"]
              (set_Key "0123456789abcdef0123456789abcdef"
                       (set_Action "get" noParams)) eq_refl)
    as [H|[H|H]]; reflexivity.
Defined.

Lemma getAction_blank_key_witness :
  getAction trimSpaces ["delete"; blankKey] noParams
  = (([], None), set_Key "" (set_Action "delete" noParams)).
Proof.
  apply (getAction_blank_key trimSpaces "delete" blankKey [] noParams).
  - set_solver.
  - reflexivity.
  - reflexivity.
Defined.

(** * Editing *)

Section editing.

Context {X : Externals}.
Variable WriteToFile : string → string → string * option error.
Variable TrimSpace : string → string.

Implicit Types (s : simpleNoteClient X).


End editing.


(** * The order of the notes *)

Section order.

Context {X : Externals}.

(** [Less] is a strict weak order on notes, as [sort.Sort] needs: no note
    is before itself, being before is transitive, and so is being
    neither before nor after. *)
Theorem Less_strict_weak_order (a b c : Note) :
  Less X a a = false
  ∧ (Less X a b = true → Less X b c = true → Less X a c = true)
  ∧ (Less X a b = false → Less X b a = false →
     Less X b c = false → Less X c b = false →
     Less X a c = false ∧ Less X c a = false).
Proof.
  unfold Less. repeat split.
  - apply bool_decide_eq_false. lia.
  - rewrite !bool_decide_eq_true. lia.
  - rewrite !bool_decide_eq_false in *. lia.
  - rewrite !bool_decide_eq_false in *. lia.
Qed.

End order.

Lemma Less_strict_weak_order_witness :
  Less offline early early = false
  ∧ Less offline early (note "k3" "three" "300") = true.
Proof.
  destruct (Less_strict_weak_order (X := offline) early late
              (note "k3" "three" "300")) as (Hirr & Htrans & _).
  split; [exact Hirr|apply Htrans; reflexivity].
Defined.

(** * The helpers *)

(** The loop of [CheckIn] finds the needle exactly when it is in the
    haystack: it decides membership. *)
Theorem CheckIn_finds_members needle haystack :
  utils.CheckIn needle haystack = bool_decide (needle ∈ haystack)
  ∧ (utils.CheckIn needle haystack = true ↔ needle ∈ haystack).
Proof.
  assert (Hiff : utils.CheckIn needle haystack = true ↔ needle ∈ haystack).
  { induction haystack as [|v haystack IH]; simpl.
    - split; [done|]. by intros ?%elem_of_nil.
    - case_bool_decide as Hv.
      + subst v. split; [intros _; left|done].
      + rewrite IH. split; [by right|].
        intros [->|Hin]%elem_of_cons; [done|exact Hin]. }
  split; [|exact Hiff].
  destruct (utils.CheckIn needle haystack) eqn:Hc; symmetry.
  - apply bool_decide_eq_true. by apply Hiff.
  - apply bool_decide_eq_false. intros Hin. apply Hiff in Hin. congruence.
Qed.

(** ** Numbers written and read back *)

Lemma digit_pretty_N_char d :
  (d < 10)%N → digit (pretty_N_char d) = Some (Z.of_N d).
Proof.
  intros Hd.
  assert (d = 0 ∨ d = 1 ∨ d = 2 ∨ d = 3 ∨ d = 4 ∨ d = 5 ∨ d = 6 ∨ d = 7
          ∨ d = 8 ∨ d = 9)%N as Hcases by lia.
  repeat (destruct Hcases as [->|Hcases]; [reflexivity|]). by subst d.
Qed.

(** Reading the digits [pretty_N_go] writes in front of a text shifts
    what was read so far and adds the number written. *)
Lemma digits_pretty_N_go x s :
  ∃ n : nat, ∀ acc,
    digits (pretty_N_go x s) acc = digits s (acc * 10 ^ Z.of_nat n + Z.of_N x).
Proof.
  revert s. induction (N.lt_wf_0 x) as [x _ IH]. intros s.
  destruct (decide (x = 0%N)) as [->|Hx].
  { exists 0%nat. intros acc. rewrite pretty_N_go_0. f_equal. simpl. lia. }
  rewrite pretty_N_go_step by lia.
  destruct (IH (x `div` 10)%N) with (s := String (pretty_N_char (x `mod` 10)) s)
    as (n & Hn).
  { apply N.div_lt; lia. }
  exists (S n). intros acc. rewrite Hn. simpl.
  rewrite digit_pretty_N_char by (apply N.mod_lt; lia). f_equal.
  rewrite N2Z.inj_div, N2Z.inj_mod. rewrite Nat2Z.inj_succ, Z.pow_succ_r by lia.
  pose proof (Z.div_mod (Z.of_N x) 10 ltac:(lia)). lia.
Qed.

Lemma pretty_N_go_cons x s :
  (0 < x)%N → ∃ c r, pretty_N_go x s = String c r.
Proof.
  revert s. induction (N.lt_wf_0 x) as [x _ IH]. intros s Hx.
  rewrite pretty_N_go_step by done.
  destruct (decide (x `div` 10 = 0)%N) as [->|Hd].
  - rewrite pretty_N_go_0. eauto.
  - apply IH; [apply N.div_lt; lia|by apply N.neq_0_lt_0].
Qed.

(** A text of digits that spells a number of [int] is read as that
    number. *)
Lemma strconv_Atoi_digits c r v :
  digits (String c r) 0 = Some v → v ≤ maxInt →
  strconv_Atoi (String c r) = (v, None).
Proof.
  intros Hd Hv.
  assert (Hpos : 0 ≤ v).
  { assert (Hmono : ∀ s acc w, 0 ≤ acc → digits s acc = Some w → 0 ≤ w).
    { induction s as [|c' s IH]; simpl; intros acc w Hacc.
      - intros [= <-]. done.
      - unfold digit. case_bool_decide; [|done]. apply IH. lia. }
    by apply (Hmono _ 0 v) in Hd. }
  assert (Hm : c ≠ "-"%char) by (intros ->; done).
  assert (Hp : c ≠ "+"%char) by (intros ->; done).
  unfold strconv_Atoi.
  destruct c as [[] [] [] [] [] [] [] []]; try done;
    rewrite Hd; (rewrite bool_decide_eq_true_2 by (unfold minInt, maxInt in *; lia));
    reflexivity.
Qed.

(** [strconv.Atoi] reads back what [strconv.Itoa] writes of an [int]. *)
Lemma strconv_Atoi_Itoa n :
  minInt ≤ n ≤ maxInt → strconv_Atoi (strconv_Itoa n) = (n, None).
Proof.
  intros Hn. unfold strconv_Itoa.
  destruct n as [|p|p].
  - reflexivity.
  - unfold pretty, pretty_Z, pretty, pretty_positive, pretty, pretty_N.
    rewrite decide_False by done.
    destruct (pretty_N_go_cons (N.pos p) "") as (c & r & Hs); [lia|].
    destruct (digits_pretty_N_go (N.pos p) "") as (k & Hk).
    specialize (Hk 0). rewrite Hs in *.
    apply strconv_Atoi_digits; [|lia].
    rewrite Hk. cbn [digits]. by f_equal.
  - unfold pretty, pretty_Z, pretty, pretty_positive, pretty, pretty_N.
    rewrite decide_False by done.
    destruct (pretty_N_go_cons (N.pos p) "") as (c & r & Hs); [lia|].
    destruct (digits_pretty_N_go (N.pos p) "") as (k & Hk).
    specialize (Hk 0). rewrite Hs in *.
    change ("-" +:+ String c r) with (String "-"%char (String c r)).
    unfold strconv_Atoi. cbv beta iota zeta. rewrite Hk. cbn [digits].
    rewrite bool_decide_eq_true_2; [f_equal; lia|].
    unfold minInt, maxInt in *. lia.
Qed.

(** ** Timestamps *)

Lemma Split_dot_0_app secs rest :
  "."%char ∉ list_ascii_of_string secs →
  utils.Split_dot_0 (secs +:+ String "."%char rest) = secs.
Proof.
  induction secs as [|c secs IH]; simpl; intros Hdot.
  - reflexivity.
  - apply not_elem_of_cons in Hdot as [Hc Hdot].
    rewrite bool_decide_eq_false_2 by done. by rewrite IH.
Qed.

Lemma Split_dot_0_whole secs :
  "."%char ∉ list_ascii_of_string secs → utils.Split_dot_0 secs = secs.
Proof.
  induction secs as [|c secs IH]; simpl; intros Hdot.
  - reflexivity.
  - apply not_elem_of_cons in Hdot as [Hc Hdot].
    rewrite bool_decide_eq_false_2 by done. by rewrite IH.
Qed.

(** The timestamp of a date is the number in front of its first dot:
    what follows the dot does not count. *)
Lemma GetSimpleNoteTimestamp_whole_seconds secs frac :
  "."%char ∉ list_ascii_of_string secs →
  utils.GetSimpleNoteTimestamp (secs +:+ "." +:+ frac) = (strconv_Atoi secs).1
  ∧ utils.GetSimpleNoteTimestamp secs = (strconv_Atoi secs).1.
Proof.
  intros Hdot. unfold utils.GetSimpleNoteTimestamp.
  change ("." +:+ frac) with (String "."%char frac).
  rewrite Split_dot_0_app, Split_dot_0_whole by done.
  by destruct (strconv_Atoi secs).
Qed.

Section same_second.

Context {X : Externals}.

(** With the timestamps of the repository's helper, two notes modified
    in the same second are not before one another, whatever the
    fractions of their dates: the sort may leave them either way round. *)
Theorem Less_same_second (a b : Note) secs fa fb :
  (∀ d, GetSimpleNoteTimestamp X d = utils.GetSimpleNoteTimestamp d) →
  "."%char ∉ list_ascii_of_string secs →
  ModifyDate a = secs +:+ "." +:+ fa →
  ModifyDate b = secs +:+ "." +:+ fb →
  Less X a b = false ∧ Less X b a = false.
Proof.
  intros HX Hdot Ha Hb. unfold Less. rewrite !HX, Ha, Hb.
  rewrite !(proj1 (GetSimpleNoteTimestamp_whole_seconds secs _ Hdot)).
  split; apply bool_decide_eq_false; lia.
Qed.

End same_second.

Lemma Less_same_second_witness :
  Less (with_helpers offline) (note "k1" "one" "1500000000.123456")
       (note "k2" "two" "1500000000.654321") = false
  ∧ Less (with_helpers offline) (note "k2" "two" "1500000000.654321")
         (note "k1" "one" "1500000000.123456") = false.
Proof.
  apply (Less_same_second (X := with_helpers offline) _ _
           "1500000000" "123456" "654321").
  - reflexivity.
  - apply (bool_decide_unpack _). by vm_compute.
  - reflexivity.
  - reflexivity.
Defined.

(** * The flags and the standard input *)

Section flags.

Variable flag_Parse : flagSet.

Implicit Types (p : CommandLineParams.t) (args rest : list string).

(** What [getFlags] stores can be read back. When it returns, the flag
    set has read the arguments from the defaults -1, false and false; the
    number stored under [n] is read by [strconv.Atoi] as the number the
    flag set gave, and is the text "-1" only for -1; [deleted] and
    [permanently] are "true" exactly when the flag set gave true; and
    nothing but the flags has changed. The flag set gives an [int]. *)
Theorem getFlags_readable args p rest p' :
  (∀ n d perm r,
      flag_Parse (-1) false false args = Some (n, d, perm, r) →
      minInt ≤ n ≤ maxInt) →
  getFlags flag_Parse args p = Returns rest p' →
  ∃ n deleted permanently,
    flag_Parse (-1) false false args = Some (n, deleted, permanently, rest)
    ∧ strconv_Atoi (index (CommandLineParams.Flags p') "n") = (n, None)
    ∧ (index (CommandLineParams.Flags p') "n" = "-1" ↔ n = -1)
    ∧ includeDeleted p' = deleted
    ∧ bool_decide (index (CommandLineParams.Flags p') "permanently" = "true")
      = permanently
    ∧ with_Flags (CommandLineParams.Flags p) p' = p.
Proof.
  intros Hint. unfold getFlags.
  destruct (flag_Parse (-1) false false args) as [[[[n d] perm] r]|] eqn:Hparse;
    [|done].
  simpl. intros [= <- <-]. exists n, d, perm. split; [done|].
  unfold includeDeleted, index. simpl.
  rewrite !(lookup_insert_ne _ _ "n") by done.
  rewrite (lookup_insert_ne _ _ "deleted") by done.
  rewrite !lookup_insert_eq. simpl.
  split; [apply strconv_Atoi_Itoa; eauto|].
  split.
  { unfold strconv_Itoa. split; [|by intros ->].
    intros Hn. by apply (inj pretty). }
  split; [by destruct d|]. split; [by destruct perm|]. by destruct p.
Qed.

(** [getFlags] keeps what the parser has of the tags, the action, the key
    and the standard input. *)
Lemma getFlags_keeps args p rest p' :
  getFlags flag_Parse args p = Returns rest p' →
  CommandLineParams.Content p' = CommandLineParams.Content p
  ∧ CommandLineParams.Tags p' = CommandLineParams.Tags p
  ∧ CommandLineParams.Action p' = CommandLineParams.Action p
  ∧ CommandLineParams.Key p' = CommandLineParams.Key p
  ∧ CommandLineParams.Piped p' = CommandLineParams.Piped p.
Proof.
  unfold getFlags.
  destruct (flag_Parse (-1) false false args) as [[[[n d] perm] r]|]; [|done].
  simpl. by intros [= <- <-].
Qed.

Lemma getFlags_no_panic args p p' : getFlags flag_Parse args p ≠ Panics p'.
Proof.
  unfold getFlags.
  by destruct (flag_Parse (-1) false false args) as [[[[n d] perm] r]|].
Qed.

Lemma getFlags_in_fuel args p p' : getFlags flag_Parse args p ≠ OutOfFuel p'.
Proof.
  unfold getFlags.
  by destruct (flag_Parse (-1) false false args) as [[[[n d] perm] r]|].
Qed.

End flags.

Lemma getFlags_readable_witness :
  ∃ p', getFlags someFlags ["-n"; "5"; "-deleted"; "tea"] noParams
        = Returns ["tea"] p'
      ∧ strconv_Atoi (index (CommandLineParams.Flags p') "n") = (5, None)
      ∧ includeDeleted p' = true.
Proof.
  destruct (getFlags someFlags ["-n"; "5"; "-deleted"; "tea"] noParams)
    as [rest p'|?|?|?] eqn:Hrun; try discriminate Hrun.
  destruct (getFlags_readable someFlags ["-n"; "5"; "-deleted"; "tea"] noParams
              rest p')
    as (n & d & perm & Hparse & Hn & _ & Hd & _).
  - intros n d perm r Hparse. vm_compute in Hparse.
    injection Hparse as <- _ _ _. unfold minInt, maxInt. lia.
  - exact Hrun.
  - vm_compute in Hparse. injection Hparse as <- <- _ <-.
    exists p'. split; [reflexivity|]. split; [exact Hn|exact Hd].
Defined.

Section standard_input.

Implicit Types (p : CommandLineParams.t) (t : terminal).

Lemma getStdin_loop_skips skipped rs ls :
  Forall fruitless skipped →
  getStdin_loop (skipped ++ rs) ls = getStdin_loop rs (ls ++ complaints skipped).
Proof.
  intros Hall. revert ls. induction Hall as [|[buf err] skipped [Hbuf Herr] _ IH];
    intros ls.
  - by rewrite app_nil_r.
  - simpl in *. subst buf. destruct err as [e|]; [|done]. simpl.
    rewrite IH. unfold complaints. simpl. by rewrite <- app_assoc.
Qed.

Lemma getStdin_loop_fruitless rs ls :
  Forall fruitless rs →
  getStdin_loop rs ls = OutOfFuel (mkTerminal [] (ls ++ complaints rs)).
Proof.
  intros Hall. rewrite <- (app_nil_r rs) at 1.
  by rewrite getStdin_loop_skips.
Qed.

(** With a standard input that is piped and at its end, [getStdin] does
    not come back: every read gives nothing and an error, the error is
    printed, and the loop starts again. *)
Theorem getStdin_spins_at_end_of_input p t :
  CommandLineParams.Piped p = true →
  Forall fruitless (reads t) →
  getStdin p t = OutOfFuel (mkTerminal [] (lines t ++ complaints (reads t))).
Proof.
  intros Hp Hall. unfold getStdin. rewrite Hp.
  by apply getStdin_loop_fruitless.
Qed.

(** [getStdin] returns the bytes of the first read that gave any, when
    that read gave no error or the end of the input: the reads before it
    that gave nothing and an error are skipped, and what the input holds
    after it is left unread. *)
Theorem getStdin_first_read p t skipped buf err rest :
  CommandLineParams.Piped p = true →
  reads t = skipped ++ (buf, err) :: rest →
  Forall fruitless skipped →
  buf ≠ "" →
  err = None ∨ err = Some io_EOF →
  getStdin p t
  = Returns (buf, None)
            (mkTerminal rest (lines t ++ complaints (skipped ++ [(buf, err)]))).
Proof.
  intros Hp Hreads Hall Hbuf Herr. unfold getStdin. rewrite Hp, Hreads.
  rewrite getStdin_loop_skips by done. simpl.
  rewrite bool_decide_eq_false_2 by (by destruct buf).
  unfold complaints. rewrite omap_app, app_assoc.
  destruct Herr as [-> | ->]; simpl; [by rewrite app_nil_r|done].
Qed.

End standard_input.

Lemma getStdin_spins_at_end_of_input_witness :
  getStdin (with_Piped true noParams)
           (mkTerminal [("", Some io_EOF); ("", Some io_EOF)] [])
  = OutOfFuel (mkTerminal [] ["EOF"; "EOF"]).
Proof.
  apply (getStdin_spins_at_end_of_input (with_Piped true noParams)
           (mkTerminal [("", Some io_EOF); ("", Some io_EOF)] [])).
  - reflexivity.
  - repeat constructor; done.
Defined.

Lemma getStdin_first_read_witness :
  getStdin (with_Piped true noParams)
           (mkTerminal [("", Some (io_failed "again")); ("milk", None);
                        ("eggs", Some io_EOF)] [])
  = Returns ("milk", None) (mkTerminal [("eggs", Some io_EOF)] ["again"]).
Proof.
  apply (getStdin_first_read (with_Piped true noParams)
           (mkTerminal [("", Some (io_failed "again")); ("milk", None);
                        ("eggs", Some io_EOF)] [])
           [("", Some (io_failed "again"))] "milk" None [("eggs", Some io_EOF)]).
  - reflexivity.
  - reflexivity.
  - repeat constructor; done.
  - done.
  - by left.
Defined.

(** * The parser *)

Section parser.

Variable flag_Parse : flagSet.
Variable WriteToFile : string → string * option error.
Variable TrimSpace : string → string.

Implicit Types (p : CommandLineParams.t) (t : terminal)
  (args rest : list string).

Lemma getAction_Piped args p r p' :
  getAction TrimSpace args p = (r, p') →
  CommandLineParams.Piped p' = CommandLineParams.Piped p.
Proof.
  unfold getAction. destruct args as [|action rest]; [by intros [= <- <-]|].
  destruct (CustomActions !! action) as [[]|]; [| |by intros [= <- <-]].
  - destruct rest as [|key rest]; [by intros [= <- <-]|].
    case_bool_decide; by intros [= <- <-].
  - by intros [= <- <-].
Qed.

Lemma getTags_Piped args p rest p' :
  getTags args p = (rest, p') →
  CommandLineParams.Piped p' = CommandLineParams.Piped p.
Proof.
  revert p. induction args as [|arg args IH]; intros p; simpl.
  - by intros [= <- <-].
  - destruct (HasPrefix_tag arg).
    + intros Hrun. by rewrite (IH _ Hrun).
    + by intros [= <- <-].
Qed.

(** The tags [getTags] takes off the front, and the parameters with
    these tags added. *)
Lemma getTags_taken args p rest p' :
  getTags args p = (rest, p') →
  ∃ tags, args = map (String "@"%char) tags ++ rest
        ∧ p' = foldl (λ p tag, add_Tag tag p) p tags.
Proof.
  revert p. induction args as [|arg args IH]; intros p; simpl.
  - intros [= <- <-]. by exists [].
  - destruct (HasPrefix_tag arg) eqn:Hpre.
    + intros Hrun. destruct (IH _ Hrun) as (tags & -> & ->).
      exists (TrimPrefix_tag arg :: tags). split; [|done]. simpl. f_equal.
      destruct arg as [|c arg]; [done|]. simpl in *.
      case_bool_decide; [by subst|done].
    + intros [= <- <-]. by exists [].
Qed.

Lemma add_Tags_fields tags p :
  let p' := foldl (λ p tag, add_Tag tag p) p tags in
  CommandLineParams.Tags p' = CommandLineParams.Tags p ++ tags
  ∧ CommandLineParams.Content p' = CommandLineParams.Content p
  ∧ CommandLineParams.Action p' = CommandLineParams.Action p
  ∧ CommandLineParams.Key p' = CommandLineParams.Key p.
Proof.
  revert p. induction tags as [|tag tags IH]; intros p; simpl.
  - by rewrite app_nil_r.
  - destruct (IH (add_Tag tag p)) as (-> & -> & -> & ->). simpl.
    by rewrite <- app_assoc.
Qed.

(** With a standard input that is piped and at its end, [parse] returns
    only to refuse the action: when the action is accepted it either
    ends the process in the flag set or is caught in the loop of
    [getStdin], whatever the arguments, having printed the error of every
    read. *)
Theorem parse_hangs_at_end_of_input args p t :
  Forall fruitless (reads t) →
  match parse flag_Parse WriteToFile TrimSpace true args p t with
  | Returns r _ => ∃ e, r = Some (ErrAction e)
  | Exits _ => True
  | Panics _ => False
  | OutOfFuel (_, t') =>
      reads t' = [] ∧ lines t' = lines t ++ complaints (reads t)
  end.
Proof.
  intros Hall. unfold parse.
  destruct (getAction TrimSpace args (with_Piped true p))
    as [[actionless [e|]] pa] eqn:Hact; [by exists e|].
  destruct (getTags actionless pa) as [tagless pt] eqn:Htags.
  destruct (getFlags flag_Parse tagless pt) as [flagless pf|?|pf|pf] eqn:Hflags;
    [|done|by apply getFlags_no_panic in Hflags
     |by apply getFlags_in_fuel in Hflags].
  assert (Hp : CommandLineParams.Piped pf = true).
  { destruct (getFlags_keeps _ _ _ _ _ Hflags) as (_ & _ & _ & _ & ->).
    rewrite (getTags_Piped _ _ _ _ Htags), (getAction_Piped _ _ _ _ Hact).
    done. }
  rewrite Hp. unfold getStdin. rewrite Hp.
  by rewrite (getStdin_loop_fruitless _ (lines t) Hall).
Qed.

(** On a terminal and without an action in front, [parse] takes the tags
    off the front, reads the flags, and makes the words that are left,
    joined by spaces, the content; with no words left the content is what
    the editor saved, trimmed, and the error of the editor is the only
    one. The action stays empty, the key is untouched and nothing is
    read from the standard input. *)
Theorem parse_words_are_content args p t r p' t' :
  match args with [] => True | a :: _ => CustomActions !! a = None end →
  CommandLineParams.Action p = "" →
  parse flag_Parse WriteToFile TrimSpace false args p t = Returns r (p', t') →
  t' = t
  ∧ CommandLineParams.Action p' = ""
  ∧ CommandLineParams.Key p' = CommandLineParams.Key p
  ∧ ∃ tags rest n deleted permanently words,
      args = map (String "@"%char) tags ++ rest
      ∧ CommandLineParams.Tags p' = CommandLineParams.Tags p ++ tags
      ∧ flag_Parse (-1) false false rest = Some (n, deleted, permanently, words)
      ∧ match words with
        | _ :: _ => r = None
                    ∧ CommandLineParams.Content p' = String.concat " " words
        | [] =>
            match (WriteToFile "").2 with
            | None => r = None
                      ∧ CommandLineParams.Content p'
                        = TrimSpace (WriteToFile "").1
            | Some e => r = Some (ErrEditor e)
                        ∧ CommandLineParams.Content p'
                          = CommandLineParams.Content p
            end
        end.
Proof.
  intros Hargs Hact. unfold parse.
  assert (Hget : getAction TrimSpace args (with_Piped false p)
                 = ((args, None), with_Piped false p)).
  { unfold getAction. destruct args as [|a args]; [done|]. by rewrite Hargs. }
  rewrite Hget.
  destruct (getTags args (with_Piped false p)) as [rest pt] eqn:Htags.
  destruct (getTags_taken _ _ _ _ Htags) as (tags & Hsplit & Hpt).
  pose proof (add_Tags_fields tags (with_Piped false p)) as Hfields.
  simpl in Hfields. rewrite <- Hpt in Hfields.
  destruct Hfields as (Htg & Hct & Hac & Hky).
  pose proof (getTags_Piped _ _ _ _ Htags) as Hpiped. simpl in Hpiped.
  unfold getFlags.
  destruct (flag_Parse (-1) false false rest) as [[[[n d] perm] words]|] eqn:Hfl;
    [|done].
  simpl. rewrite Hpiped, Hac, Hact. rewrite bool_decide_eq_true_2 by done.
  destruct words as [|w words].
  - rewrite bool_decide_eq_false_2 by (unfold len; simpl; lia).
    destruct (WriteToFile "") as [content [e|]] eqn:Hw.
    + intros [= <- <- <-]. simpl. do 3 (split; [congruence|]).
      by exists tags, rest, n, d, perm, [].
    + intros [= <- <- <-]. simpl. do 3 (split; [congruence|]).
      by exists tags, rest, n, d, perm, [].
  - rewrite bool_decide_eq_true_2 by (unfold len; simpl; lia).
    intros [= <- <- <-]. simpl. do 3 (split; [congruence|]).
    by exists tags, rest, n, d, perm, (w :: words).
Qed.

End parser.

Lemma parse_hangs_at_end_of_input_witness :
  ∃ p', parse someFlags (λ _, ("", None)) trimSpaces true ["list"; "-n"; "5"]
              noParams (mkTerminal [("", Some io_EOF); ("", Some io_EOF)] [])
        = OutOfFuel (p', mkTerminal [] ["EOF"; "EOF"]).
Proof.
  pose proof (parse_hangs_at_end_of_input someFlags (λ _, ("", None)) trimSpaces
                ["list"; "-n"; "5"] noParams
                (mkTerminal [("", Some io_EOF); ("", Some io_EOF)] [])) as H.
  destruct (parse someFlags _ trimSpaces true ["list"; "-n"; "5"] noParams _)
    as [r s|s|s|[p' [rs ls]]] eqn:Hrun; try discriminate Hrun.
  destruct H as [Hr Hl]; [repeat constructor; done|].
  simpl in Hr, Hl. subst rs ls. by exists p'.
Defined.

Lemma parse_words_are_content_witness :
  ∃ p', parse someFlags (λ _, ("", None)) trimSpaces false
              ["@shop"; "-deleted"; "buy"; "milk"] noParams (mkTerminal [] [])
        = Returns None (p', mkTerminal [] [])
      ∧ CommandLineParams.Content p' = "buy milk"
      ∧ CommandLineParams.Tags p' = ["shop"].
Proof.
  assert (Hc : match parse someFlags (λ _, ("", None)) trimSpaces false
                       ["@shop"; "-deleted"; "buy"; "milk"] noParams
                       (mkTerminal [] []) with
               | Returns None (p', _) =>
                   CommandLineParams.Content p' = "buy milk"
                   ∧ CommandLineParams.Tags p' = ["shop"]
               | _ => False
               end).
  { vm_compute. split; reflexivity. }
  destruct (parse someFlags (λ _, ("", None)) trimSpaces false
              ["@shop"; "-deleted"; "buy"; "milk"] noParams (mkTerminal [] []))
    as [[e|] [p' t']|s|s|s] eqn:Hrun; try done.
  destruct (parse_words_are_content someFlags (λ _, ("", None)) trimSpaces
              ["@shop"; "-deleted"; "buy"; "milk"] noParams (mkTerminal [] [])
              None p' t') as (-> & _).
  - reflexivity.
  - reflexivity.
  - exact Hrun.
  - exists p'. split; [reflexivity|exact Hc].
Defined.
